(** * Earthquake Explorer: query construction, refresh cycle and aggregations

    A shallow embedding of the application logic of the dashboard:
    - [App.buildUSGSQuery], [App.fetchEarthquakeData] and the refresh cycle
      of the top-level component,
    - [Dashboard.getStats], [Dashboard.recentEarthquakes],
    - [Timeline.getTimeDistribution],
    - [Statistics.getMagnitudeStats], [Statistics.getDepthDistribution] and
      the magnitude histogram,
    followed by the properties established about them.

    JavaScript numbers are IEEE-754 binary64 values and are embedded as Rocq's
    primitive floats, which have the same format and rounding.  Timestamps
    (epoch milliseconds) and the differences the code takes of them are
    integers well below 2^53, where binary64 arithmetic is exact; they are
    embedded as [Z]. *)

From Stdlib Require Import ZArith Floats Lia.
From stdpp Require Import gmap strings list sorting.

Local Open Scope Z_scope.

(* Decimal literals such as 3.2 denote the nearest binary64 value, as they do
   in the source language. *)
#[local] Set Warnings "-inexact-float".

(* ===================================================================== *)
(** * Part I: the embedding                                               *)
(* ===================================================================== *)

(** ** Numbers *)

Module JSNum.

(** The relational operators of the language on two numbers.  Each one is
    [false] as soon as an operand is NaN. *)
Definition lt (a b : float) : bool := PrimFloat.ltb a b.
Definition le (a b : float) : bool := PrimFloat.leb a b.
Definition gt (a b : float) : bool := PrimFloat.ltb b a.
Definition ge (a b : float) : bool := PrimFloat.leb b a.
Definition isNaN (a : float) : bool := PrimFloat.is_nan a.

(** [+0] and [-0] both compare equal to [0]. *)
Definition isZero (a : float) : bool := PrimFloat.eqb a 0%float.

(** An array length (below 2^32) as a number. *)
Definition of_nat (n : nat) : float :=
  PrimFloat.of_uint63 (Uint63.of_Z (Z.of_nat n)).

(** [Math.max] on two arguments: NaN when an argument is NaN, and [+0] is
    larger than [-0] (the sum of two zeros is [-0] only when both are). *)
Definition max2 (a b : float) : float :=
  if isNaN a || isNaN b then nan
  else if lt a b then b
  else if lt b a then a
  else if isZero a && isZero b then (a + b)%float
  else a.

(** [Math.max(...xs)]; [Math.max()] is [-Infinity]. *)
Definition Math_max (xs : list float) : float := foldl max2 neg_infinity xs.

End JSNum.

(** ** Values *)

Module JS.

Inductive value :=
| Undefined
| Null
| Bool (b : bool)
| Num (n : float)
| Str (s : string).

(** ToBoolean: [undefined], [null], [false], [0], [-0], [NaN] and the empty
    string are falsy. *)
Definition ToBoolean (v : value) : bool :=
  match v with
  | Undefined | Null => false
  | Bool b => b
  | Num n => negb (JSNum.isZero n || JSNum.isNaN n)
  | Str s => negb (String.eqb s "")
  end.

(** [a || b] *)
Definition or (a b : value) : value := if ToBoolean a then a else b.

(** [a === b], as a [switch] compares its cases. *)
Definition strict_equals (a b : value) : bool :=
  match a, b with
  | Undefined, Undefined | Null, Null => true
  | Bool x, Bool y => eqb x y
  | Num x, Num y => PrimFloat.eqb x y
  | Str x, Str y => String.eqb x y
  | _, _ => false
  end.

(** A plain object used as a record of named fields; reading a field that
    is not there gives [undefined]. *)
Definition get (o : gmap string value) (k : string) : value :=
  default Undefined (o !! k).

(** Text produced by the built-in formatters is kept symbolic: the value or
    date that is formatted, not the characters. *)
Inductive text :=
| ToString (v : value)            (* String(v) *)
| ToISOString (t : Z)             (* new Date(t).toISOString() *)
| ToFixed (digits : nat) (n : float). (* n.toFixed(digits) *)

(** What a component shows for a statistic: a number, or formatted text. *)
Inductive shown :=
| Plain (n : float)
| Text (t : text).

End JS.

(** ** The feed's records *)

Record Properties := {
  mag : option float;     (* null in some feed records *)
  place : string;
  time : Z;
  felt : option Z
}.

Record Geometry := {
  coordinates : list (option float)   (* [lon, lat, depth] *)
}.

Record Feature := {
  id : string;
  geometry : Geometry;
  properties : Properties
}.

(** [eq.geometry.coordinates[2]]; out of range reads as [undefined], which
    [!= null] treats like [null]. *)
Definition depth_of (eq : Feature) : option float :=
  mjoin (coordinates (geometry eq) !! 2%nat).

(** ** Arrays *)

Module Array.

Section sort.
Context {A : Type} (compareFn : A → A → Z).

(** [x] goes before the first element it does not have to follow. *)
Fixpoint insert (x : A) (l : list A) : list A :=
  match l with
  | [] => [x]
  | y :: l' =>
      if compareFn x y <=? 0 then x :: l else y :: insert x l'
  end.

(** [Array.prototype.sort(compareFn)].  The sort is stable, so for a
    consistent comparator its result is determined; it is computed here by
    insertion from the right, which keeps equal elements in their order.
    The sort is in place: the result is the new content of the array the
    method was called on (and the method returns that same array). *)
Definition sort (arr : list A) : list A := foldr insert [] arr.

End sort.

(** [arr.slice(0, n)]: a new array. *)
Definition slice0 {A} (n : nat) (arr : list A) : list A := take n arr.

End Array.

(** ** The top-level component *)

Module App.

Import JS.

(** A [URLSearchParams]: the entries in the order they were appended. *)
Abbreviation URLSearchParams := (list (string * text)).

Definition append (query : URLSearchParams) (name : string) (v : text) :
  URLSearchParams := query ++ [(name, v)].

(** [query.getAll(name)] *)
Definition getAll (name : string) (query : URLSearchParams) : list text :=
  (filter (λ kv, kv.1 = name) query).*2.

Definition has (name : string) (query : URLSearchParams) : bool :=
  bool_decide (getAll name query ≠ []).

(** The string [`${baseUrl}?${query.toString()}`]. *)
Record url := { baseUrl : string; search : URLSearchParams }.

(** [buildUSGSQuery(filterOptions)], with the value of [new Date()] as
    [now]. *)
Definition buildUSGSQuery (now : Z) (filterOptions : gmap string value) : url :=
  let query : URLSearchParams :=
    [ ("format"%string, ToString (Str "geojson"));
      ("limit"%string, ToString (or (get filterOptions "limit") (Num 100))) ] in
  let timeRange := get filterOptions "timeRange" in
  let startTime :=
    if strict_equals timeRange (Str "hour") then now - 60 * 60 * 1000
    else if strict_equals timeRange (Str "day") then now - 24 * 60 * 60 * 1000
    else if strict_equals timeRange (Str "week") then now - 7 * 24 * 60 * 60 * 1000
    else if strict_equals timeRange (Str "month") then now - 30 * 24 * 60 * 60 * 1000
    else now - 24 * 60 * 60 * 1000 in
  let query := append query "starttime" (ToISOString startTime) in
  let query := append query "endtime" (ToISOString now) in
  let query :=
    if ToBoolean (get filterOptions "minMagnitude")
    then append query "minmagnitude" (ToString (get filterOptions "minMagnitude"))
    else query in
  let query :=
    if ToBoolean (get filterOptions "maxMagnitude")
    then append query "maxmagnitude" (ToString (get filterOptions "maxMagnitude"))
    else query in
  let query :=
    if ToBoolean (get filterOptions "minDepth")
    then append query "mindepth" (ToString (get filterOptions "minDepth"))
    else query in
  let query :=
    if ToBoolean (get filterOptions "maxDepth")
    then append query "maxdepth" (ToString (get filterOptions "maxDepth"))
    else query in
  let query :=
    if ToBoolean (get filterOptions "latitude")
    then append query "latitude" (ToString (get filterOptions "latitude"))
    else query in
  let query :=
    if ToBoolean (get filterOptions "longitude")
    then append query "longitude" (ToString (get filterOptions "longitude"))
    else query in
  let query :=
    if ToBoolean (get filterOptions "radius")
    then append query "maxradiuskm" (ToString (get filterOptions "radius"))
    else query in
  let query := append query "orderby" (ToString (Str "time")) in
  {| baseUrl := "https://earthquake.usgs.gov/fdsnws/event/1/query";
     search := query |}.

(** *** Fetching *)

(** What [response.json()] gives: it rejects on a body that is not JSON; a
    body that parses to [null] makes [data.features] throw; any other value
    has a [features] field or not ([None]: absent, or [null]). *)
Inductive body :=
| Unparsable
| JsonNull
| JsonObject (features : option (list Feature)).

(** How [fetch(query)] settles: rejected (network error), or fulfilled with
    a response of some HTTP status. *)
Inductive fetched :=
| Rejected
| Response (status : nat) (json : body).

(** [response.ok] *)
Definition ok (status : nat) : bool :=
  bool_decide (200 ≤ status ≤ 299)%nat.

Inductive error :=
| NetworkError                (* thrown by [await fetch(query)] *)
| HTTPError (status : nat)    (* new Error(`HTTP error! status: ...`) *)
| SyntaxError                 (* thrown by [await response.json()] *)
| TypeError.                  (* [data.features] on [null] *)

Inductive console_entry :=
| log_fetching (query : url)        (* console.log('Fetching from:', query) *)
| log_fetched (data : body)         (* console.log('Fetched data:', data) *)
| error_fetching (e : error).       (* console.error('Error fetching earthquake data:', error) *)

(** A request that has been sent.  [ticket] numbers the requests in the
    order they are sent; it is a history variable, like [issued] and
    [settled] below: no operation reads them. *)
Record request := { ticket : nat; query : url }.

(** The state cells of the component ([useState]), the console, and the
    requests that have been sent and have not settled yet.  [issued] has
    every request in the order it was sent, [settled] every request that
    has settled with what it settled with, in the order they settled. *)
Record world := {
  earthquakeData : list Feature;
  loading : bool;
  filters : gmap string value;
  console : list console_entry;
  interval : bool;                  (* the 5-minute timer is set *)
  inflight : list request;
  issued : list request;
  settled : list (request * fetched)
}.

Definition setEarthquakeData (d : list Feature) (w : world) : world :=
  {| earthquakeData := d; loading := loading w; filters := filters w;
     console := console w; interval := interval w; inflight := inflight w;
     issued := issued w; settled := settled w |}.

Definition setLoading (b : bool) (w : world) : world :=
  {| earthquakeData := earthquakeData w; loading := b; filters := filters w;
     console := console w; interval := interval w; inflight := inflight w;
     issued := issued w; settled := settled w |}.

Definition setFilters (f : gmap string value) (w : world) : world :=
  {| earthquakeData := earthquakeData w; loading := loading w; filters := f;
     console := console w; interval := interval w; inflight := inflight w;
     issued := issued w; settled := settled w |}.

Definition console_write (e : console_entry) (w : world) : world :=
  {| earthquakeData := earthquakeData w; loading := loading w;
     filters := filters w; console := console w ++ [e];
     interval := interval w; inflight := inflight w;
     issued := issued w; settled := settled w |}.

Definition setInterval (b : bool) (w : world) : world :=
  {| earthquakeData := earthquakeData w; loading := loading w;
     filters := filters w; console := console w; interval := b;
     inflight := inflight w; issued := issued w; settled := settled w |}.

(** [fetch(query)] is called: the request is on its way. *)
Definition send (query : url) (w : world) : world :=
  let rq := {| ticket := length (issued w); query := query |} in
  {| earthquakeData := earthquakeData w; loading := loading w;
     filters := filters w; console := console w; interval := interval w;
     inflight := inflight w ++ [rq]; issued := issued w ++ [rq];
     settled := settled w |}.

(** The [i]-th request on its way, [rq], settles with [r]. *)
Definition receive (i : nat) (rq : request) (r : fetched) (w : world) : world :=
  {| earthquakeData := earthquakeData w; loading := loading w;
     filters := filters w; console := console w; interval := interval w;
     inflight := delete i (inflight w); issued := issued w;
     settled := settled w ++ [(rq, r)] |}.

(** The state at the first render: [useState([])], [useState(true)] and the
    default filters. *)
Definition initial : world :=
  {| earthquakeData := []; loading := true;
     filters := list_to_map
       [ ("timeRange"%string, Str "day"); ("minMagnitude"%string, Num 1);
         ("maxMagnitude"%string, Num 10); ("limit"%string, Num 100) ];
     console := []; interval := false; inflight := []; issued := [];
     settled := [] |}.

(** A block either completes normally ([None]) or throws. *)
Definition completion := option error.

(** [try { body } catch (error) { handler } finally { finalizer }] *)
Definition try_catch_finally
    (body : world → completion * world)
    (handler : error → world → completion * world)
    (finalizer : world → world) (w : world) : completion * world :=
  let '(c, w) := body w in
  let '(c, w) := match c with
                 | Some e => handler e w
                 | None => (None, w)
                 end in
  (c, finalizer w).

(** [fetchEarthquakeData] up to its first [await]: the part that runs when
    the function is called.  It gives the query that is sent. *)
Definition fetchEarthquakeData_call (now : Z) (w : world) : url * world :=
  let w := setLoading true w in
  let query := buildUSGSQuery now (filters w) in
  let w := console_write (log_fetching query) w in
  (query, w).

(** The rest of the [try] block, once [fetch(query)] has settled with [r].
    Nothing is written between the two [await]s, so they are one step. *)
Definition fetchEarthquakeData_try (r : fetched) (w : world) :
  completion * world :=
  match r with
  | Rejected => (Some NetworkError, w)
  | Response status json =>
      if negb (ok status) then (Some (HTTPError status), w)
      else match json with
           | Unparsable => (Some SyntaxError, w)
           | JsonNull => (Some TypeError, console_write (log_fetched json) w)
           | JsonObject features =>
               let w := console_write (log_fetched json) w in
               (None, setEarthquakeData (default [] features) w)
           end
  end.

(** [fetchEarthquakeData] from the point where [fetch(query)] settles: the
    completion is that of the promise the function returned. *)
Definition fetchEarthquakeData_resume (r : fetched) : world → completion * world :=
  try_catch_finally
    (fetchEarthquakeData_try r)
    (λ e w, (None, setEarthquakeData [] (console_write (error_fetching e) w)))
    (setLoading false).

(** One whole call with nothing in between, whose request settles with
    [r]. *)
Definition fetchEarthquakeData (r : fetched) (now : Z) (w : world) :
  completion * world :=
  let '(_, w) := fetchEarthquakeData_call now w in
  fetchEarthquakeData_resume r w.

(** [updateFilter(key, value)] *)
Definition updateFilter (key : string) (v : value) (w : world) : world :=
  setFilters (<[key := v]> (filters w)) w.

(** *** The refresh cycle

    The effect [useEffect(..., [filters])] calls [fetchEarthquakeData] and
    sets the timer; it runs after the first render and after every change of
    [filters].  Its cleanup clears the timer and leaves requests that are on
    their way alone.  All of this runs on one thread: a call runs up to its
    [await], and resumes when its request settles, in any order. *)
Inductive event :=
| Mount (now : Z)
| UpdateFilter (key : string) (v : value) (now : Z)
| Tick (now : Z)
| Settle (i : nat) (r : fetched). (* the [i]-th request on its way settles *)

Definition effect (now : Z) (w : world) : world :=
  let '(query, w) := fetchEarthquakeData_call now w in
  setInterval true (send query w).

Definition step (ev : event) (w : world) : option world :=
  match ev with
  | Mount now =>
      if interval w then None else Some (effect now w)
  | UpdateFilter key v now =>
      if interval w
      then Some (effect now (setInterval false (updateFilter key v w)))
      else None
  | Tick now =>
      if interval w
      then let '(query, w) := fetchEarthquakeData_call now w in
           Some (send query w)
      else None
  | Settle i r =>
      rq ← inflight w !! i;
      Some (fetchEarthquakeData_resume r (receive i rq r w)).2
  end.

Fixpoint run (evs : list event) (w : world) : option world :=
  match evs with
  | [] => Some w
  | ev :: evs => w' ← step ev w; run evs w'
  end.

End App.

(** ** The dashboard tab *)

Module Dashboard.

Import JS.

Record stats := {
  total : nat;
  largest : shown;
  averageMagnitude : shown;
  last24Hours : nat
}.

(** [earthquakeData.map(eq => eq.properties.mag).filter(mag => mag != null)] *)
Definition magnitudes (earthquakeData : list Feature) : list float :=
  omap (λ eq, mag (properties eq)) earthquakeData.

(** [getStats()], with the value of [Date.now()] as [now]. *)
Definition getStats (now : Z) (earthquakeData : list Feature) : stats :=
  if bool_decide (length earthquakeData = 0%nat) then
    {| total := 0; largest := Plain 0; averageMagnitude := Plain 0;
       last24Hours := 0 |}
  else
    let magnitudes := magnitudes earthquakeData in
    let largest := JSNum.Math_max magnitudes in
    let averageMagnitude :=
      (foldl (λ sum mag, sum + mag) 0 magnitudes
       / JSNum.of_nat (length magnitudes))%float in
    let last24Hours :=
      length (List.filter
                (λ eq, now - time (properties eq) <? 24 * 60 * 60 * 1000)
                earthquakeData) in
    {| total := length earthquakeData;
       largest := Text (ToFixed 1 largest);
       averageMagnitude := Text (ToFixed 1 averageMagnitude);
       last24Hours := last24Hours |}.

(** [getMagnitudeColor(magnitude)] on the magnitude of an event; [null]
    compares as [0]. *)
Definition getMagnitudeColor (magnitude : option float) : string :=
  let magnitude := default 0%float magnitude in
  if JSNum.ge magnitude 7 then "#e74c3c"
  else if JSNum.ge magnitude 6 then "#f39c12"
  else if JSNum.ge magnitude 5 then "#f1c40f"
  else if JSNum.ge magnitude 4 then "#27ae60"
  else "#3498db".

(** [earthquakeData.sort((a, b) => b.properties.time - a.properties.time)
    .slice(0, 10)], evaluated on every render.  [earthquakeData] is the
    array the component was given, which is the one in the state of [App];
    [sort] reorders it in place.  The result pairs the value of
    [recentEarthquakes] with the content of [earthquakeData] afterwards. *)
Definition recentEarthquakes (earthquakeData : list Feature) :
  list Feature * list Feature :=
  let earthquakeData :=
    Array.sort (λ a b, time (properties b) - time (properties a))
      earthquakeData in
  (Array.slice0 10 earthquakeData, earthquakeData).

(** Rendering the tab from the state of [App]: the statistics, the list of
    recent events, and the state, whose array the render has sorted. *)
Definition render (now : Z) (w : App.world) :
  stats * list Feature * App.world :=
  let stats := getStats now (App.earthquakeData w) in
  let '(recent, data) := recentEarthquakes (App.earthquakeData w) in
  (stats, recent, App.setEarthquakeData data w).

End Dashboard.

(** ** The timeline tab *)

Module Timeline.

Record bucket := { hours : Z; count : nat }.

(** [earthquakeData.filter(d => d.properties.mag != null).sort(...)]:
    [filter] makes a new array, and that one is sorted. *)
Definition sortedData (earthquakeData : list Feature) : list Feature :=
  Array.sort (λ a b, time (properties a) - time (properties b))
    (List.filter (λ d, bool_decide (is_Some (mag (properties d))))
       earthquakeData).

(** [Math.floor((now - eq.properties.time) / (1000 * 60 * 60))].  The
    difference of two timestamps is exact, and rounding its quotient by
    3600000 never reaches the next integer, so the result is the floor of
    the exact quotient. *)
Definition hoursAgo (now : Z) (eq : Feature) : Z :=
  (now - time (properties eq)) `div` (1000 * 60 * 60).

(** The object [hourBuckets] after the [forEach]. *)
Definition hourBuckets (now : Z) (earthquakeData : list Feature) : gmap Z nat :=
  foldl (λ hourBuckets eq,
           let hoursAgo := hoursAgo now eq in
           <[hoursAgo := (default 0 (hourBuckets !! hoursAgo) + 1)%nat]>
             hourBuckets)
    ∅ earthquakeData.

(** [getTimeDistribution()], with the value of [Date.now()] as [now].
    [Object.entries] lists the keys in the object's own order; the entries
    have distinct keys, so the sort that follows gives the same array
    whatever that order is (see [sort_entries_any_order]). *)
Definition getTimeDistribution (now : Z) (earthquakeData : list Feature) :
  list bucket :=
  if bool_decide (length earthquakeData = 0%nat) then []
  else
    Array.slice0 24
      (Array.sort (λ a b, hours a - hours b)
         ((λ '(hours, count), {| hours := hours; count := count |})
            <$> map_to_list (hourBuckets now earthquakeData))).

End Timeline.

(** ** The statistics tab *)

Module Statistics.

(** [earthquakeData.map(d => d.properties.mag).filter(mag => mag != null)] *)
Definition magnitudes (earthquakeData : list Feature) : list float :=
  omap (λ eq, mag (properties eq)) earthquakeData.

Record bin := { x0 : float; x1 : float; items : list float }.

(** The bin edges 0, 0.5, ..., 10. *)
Definition edge (k : nat) : float := (JSNum.of_nat k / 2)%float.

(** Modelled from the spec: [d3.bin().domain([0, 10]).thresholds(20)] is the
    charting library's generator, which is not among the sources.  As the
    specification has it: a fixed domain [0,10] and 20 equal-width bins; a
    bin holds the values of the half-open interval [[x0, x1)], except the
    last bin, which is closed on both ends; a value outside the domain is in
    no bin. *)
Definition d3_bin (values : list float) : list bin :=
  (λ i, {| x0 := edge i;
           x1 := edge (S i);
           items :=
             List.filter
               (λ v, JSNum.le (edge i) v
                     && (if (i =? 19)%nat then JSNum.le v (edge 20)
                         else JSNum.lt v (edge (S i))))
               values |})
    <$> seq 0 20.

(** The effect that draws the chart, as far as its bins.  It returns at
    once, with nothing computed, when [chartRef.current] holds no element,
    while [loading], and on an empty snapshot; [chartRef_current] tells
    whether the ref holds the element of the chart.  Past that guard the bins
    are [d3.bin().domain([0, 10]).thresholds(20)(magnitudes)]. *)
Definition bins (chartRef_current loading : bool)
    (earthquakeData : list Feature) : option (list bin) :=
  if negb chartRef_current || loading
     || bool_decide (length earthquakeData = 0%nat)
  then None
  else
    let magnitudes := magnitudes earthquakeData in
    Some (d3_bin magnitudes).

(** The predicates the code filters with, one per band. *)
Definition shallow (d : float) : bool := JSNum.lt d 70.
Definition intermediate (d : float) : bool := JSNum.ge d 70 && JSNum.lt d 300.
Definition deep (d : float) : bool := JSNum.ge d 300.

Definition minor (m : float) : bool := JSNum.lt m 4.
Definition light (m : float) : bool := JSNum.ge m 4 && JSNum.lt m 5.
Definition moderate (m : float) : bool := JSNum.ge m 5 && JSNum.lt m 6.
Definition strong (m : float) : bool := JSNum.ge m 6 && JSNum.lt m 7.
Definition major (m : float) : bool := JSNum.ge m 7.

(** [earthquakeData.map(eq => eq.geometry.coordinates[2])
    .filter(depth => depth != null)] *)
Definition depths (earthquakeData : list Feature) : list float :=
  omap depth_of earthquakeData.

(** [getDepthDistribution()]: the object [{}] or
    [{ shallow, intermediate, deep }]. *)
Definition getDepthDistribution (earthquakeData : list Feature) :
  gmap string nat :=
  if bool_decide (length earthquakeData = 0%nat) then ∅
  else
    let depths := depths earthquakeData in
    let shallow := length (List.filter shallow depths) in
    let intermediate := length (List.filter intermediate depths) in
    let deep := length (List.filter deep depths) in
    <["shallow" := shallow]>
      (<["intermediate" := intermediate]> (<["deep" := deep]> ∅)).

(** [getMagnitudeStats()]: the object [{}] or
    [{ minor, light, moderate, strong, major }]. *)
Definition getMagnitudeStats (earthquakeData : list Feature) :
  gmap string nat :=
  if bool_decide (length earthquakeData = 0%nat) then ∅
  else
    let magnitudes := magnitudes earthquakeData in
    let minor := length (List.filter minor magnitudes) in
    let light := length (List.filter light magnitudes) in
    let moderate := length (List.filter moderate magnitudes) in
    let strong := length (List.filter strong magnitudes) in
    let major := length (List.filter major magnitudes) in
    <["minor" := minor]>
      (<["light" := light]>
         (<["moderate" := moderate]>
            (<["strong" := strong]> (<["major" := major]> ∅)))).

(** What the tab shows for a band: [stats.band || 0]. *)
Definition shown_count (stats : gmap string nat) (band : string) : nat :=
  default 0%nat (stats !! band).

End Statistics.

(** ** The map tab *)

Module EarthquakeMap.

Import JS.

(** [getMarkerColor(mag)] *)
Definition getMarkerColor (mag : float) : string :=
  if JSNum.ge mag 7 then "#d32f2f"
  else if JSNum.ge mag 6 then "#f57c00"
  else if JSNum.ge mag 5 then "#fbc02d"
  else if JSNum.ge mag 4 then "#388e3c"
  else "#1976d2".

(** The content of a popup: the formatted magnitude, the place, the
    formatted depth ([None] for ['N/A']), the time that is formatted with
    [toLocaleString], and [properties.felt || 0]. *)
Record popup := {
  heading : text;
  location : string;
  depthText : option text;
  when : Z;
  feltReports : Z
}.

(** The options and the popup of an [L.circle]. *)
Record circle := {
  center : float * float;     (* [latitude, longitude] *)
  radius : float;
  color : string;
  fillColor : string;
  fillOpacity : float;
  weight : float;
  popupContent : popup
}.

(** The body of [earthquakes.forEach]: the circle made for an event, or
    [None] when the body returns early on
    [!magnitude || !latitude || !longitude]. *)
Definition marker (earthquake : Feature) : option circle :=
  let longitude := mjoin (coordinates (geometry earthquake) !! 0%nat) in
  let latitude := mjoin (coordinates (geometry earthquake) !! 1%nat) in
  let depth := mjoin (coordinates (geometry earthquake) !! 2%nat) in
  let magnitude := mag (properties earthquake) in
  match magnitude, latitude, longitude with
  | Some magnitude, Some latitude, Some longitude =>
      if negb (ToBoolean (Num magnitude)) || negb (ToBoolean (Num latitude))
         || negb (ToBoolean (Num longitude))
      then None
      else
        Some {| center := (latitude, longitude);
                radius := (magnitude * 10000)%float;
                color := getMarkerColor magnitude;
                fillColor := getMarkerColor magnitude;
                fillOpacity := 0.3;
                weight := 2;
                popupContent :=
                  {| heading := ToFixed 1 magnitude;
                     location := place (properties earthquake);
                     depthText := ToFixed 1 <$> depth;
                     when := time (properties earthquake);
                     feltReports := default 0 (felt (properties earthquake)) |} |}
  | _, _, _ => None
  end.

(** A circle object; [stamp] stands for its identity, the order in which
    the objects are made. *)
Record layer := { stamp : nat; shape : circle }.

(** The state of the component: the map ([None] until it is initialised)
    with the circles that are on it, the array [markersRef.current], and the
    number of circles made so far. *)
Record state := {
  map : option (list layer);
  markersRef : list layer;
  made : nat
}.

Definition initial : state := {| map := None; markersRef := []; made := 0 |}.

(** The effect that initialises the map: [if (!mapRef.current || map)
    return], with the container present. *)
Definition initialize (st : state) : state :=
  match map st with
  | Some _ => st
  | None => {| map := Some []; markersRef := markersRef st; made := made st |}
  end.

(** [map.removeLayer(marker)]: the layer goes when it is on the map. *)
Definition removeLayer (marker : layer) (layers : list layer) : list layer :=
  List.filter (λ l, negb (stamp l =? stamp marker)%nat) layers.

(** One round of [earthquakes.forEach]: [circle.addTo(map)] and
    [markersRef.current.push(circle)]. *)
Definition place_marker (st : state) (earthquake : Feature) : state :=
  match marker earthquake with
  | None => st
  | Some c =>
      let circle := {| stamp := made st; shape := c |} in
      {| map := (λ layers, layers ++ [circle]) <$> map st;
         markersRef := markersRef st ++ [circle];
         made := S (made st) |}
  end.

(** The effect on [[map, earthquakes, loading]]. *)
Definition update_markers (earthquakes : list Feature) (loading : bool)
    (st : state) : state :=
  match map st with
  | None => st
  | Some layers =>
      if loading then st
      else
        let layers := foldl (λ layers marker, removeLayer marker layers)
                        layers (markersRef st) in
        foldl place_marker
          {| map := Some layers; markersRef := []; made := made st |}
          earthquakes
  end.

(** What happens to the component: the map is initialised, or it renders
    with the events and the loading flag it has. *)
Inductive event :=
| Initialize
| Render (earthquakes : list Feature) (loading : bool).

Definition step (st : state) (ev : event) : state :=
  match ev with
  | Initialize => initialize st
  | Render earthquakes loading => update_markers earthquakes loading st
  end.

Definition run (evs : list event) (st : state) : state := foldl step st evs.

End EarthquakeMap.

(** ** The details of the selected event *)

Module Details.

Import JS.

(** The state cells of [Dashboard], its console, and the ids of the events
    whose details have been asked for and have not arrived. *)
Record state := {
  selectedEvent : option string;
  eventDetails : option Feature;    (* [None]: [null] or [undefined] *)
  loadingDetails : bool;
  console : list App.error;         (* console.error('Error fetching event details:', error) *)
  asked : list string
}.

Definition initial : state :=
  {| selectedEvent := None; eventDetails := None; loadingDetails := false;
     console := []; asked := [] |}.

Definition setSelectedEvent (x : option string) (st : state) : state :=
  {| selectedEvent := x; eventDetails := eventDetails st;
     loadingDetails := loadingDetails st; console := console st;
     asked := asked st |}.

Definition setEventDetails (x : option Feature) (st : state) : state :=
  {| selectedEvent := selectedEvent st; eventDetails := x;
     loadingDetails := loadingDetails st; console := console st;
     asked := asked st |}.

Definition setLoadingDetails (b : bool) (st : state) : state :=
  {| selectedEvent := selectedEvent st; eventDetails := eventDetails st;
     loadingDetails := b; console := console st; asked := asked st |}.

Definition console_error (e : App.error) (st : state) : state :=
  {| selectedEvent := selectedEvent st; eventDetails := eventDetails st;
     loadingDetails := loadingDetails st; console := console st ++ [e];
     asked := asked st |}.

Definition ask (eventId : string) (st : state) : state :=
  {| selectedEvent := selectedEvent st; eventDetails := eventDetails st;
     loadingDetails := loadingDetails st; console := console st;
     asked := asked st ++ [eventId] |}.

Definition arrive (i : nat) (st : state) : state :=
  {| selectedEvent := selectedEvent st; eventDetails := eventDetails st;
     loadingDetails := loadingDetails st; console := console st;
     asked := delete i (asked st) |}.

(** [getEventDetails(eventId)] once [fetch] has settled with [r]: the parsed
    body, whatever the status of the response is, or what is thrown. *)
Definition getEventDetails (r : App.fetched) : App.body + App.error :=
  match r with
  | App.Rejected => inr App.NetworkError
  | App.Response _ App.Unparsable => inr App.SyntaxError
  | App.Response _ json => inl json
  end.

(** [handleEventClick(earthquake)] up to its [await]: [true] when the
    details are asked for. *)
Definition handleEventClick_call (earthquake : Feature) (st : state) :
  bool * state :=
  if bool_decide (selectedEvent st = Some (id earthquake)) then
    (false, setEventDetails None (setSelectedEvent None st))
  else
    (true,
     ask (id earthquake)
       (setLoadingDetails true (setSelectedEvent (Some (id earthquake)) st))).

(** The [try] block once the request has settled with [r]:
    [setEventDetails(details.features[0])]. *)
Definition handleEventClick_try (r : App.fetched) (st : state) :
  option App.error * state :=
  match getEventDetails r with
  | inr e => (Some e, st)
  | inl App.Unparsable => (Some App.SyntaxError, st)
  | inl App.JsonNull => (Some App.TypeError, st)
  | inl (App.JsonObject None) => (Some App.TypeError, st)
  | inl (App.JsonObject (Some features)) =>
      (None, setEventDetails (head features) st)
  end.

(** [handleEventClick] from the point where the request settles, with its
    [catch] and [finally]. *)
Definition handleEventClick_resume (r : App.fetched) (st : state) : state :=
  let '(thrown, st) := handleEventClick_try r st in
  let st := match thrown with
            | Some e => setEventDetails None (console_error e st)
            | None => st
            end in
  setLoadingDetails false st.

(** A click on an event of the list, or the [i]-th request on its way
    settles. *)
Inductive event :=
| Click (earthquake : Feature)
| Settle (i : nat) (r : App.fetched).

Definition step (ev : event) (st : state) : option state :=
  match ev with
  | Click earthquake => Some (handleEventClick_call earthquake st).2
  | Settle i r =>
      _ ← asked st !! i;
      Some (handleEventClick_resume r (arrive i st))
  end.

Fixpoint run (evs : list event) (st : state) : option state :=
  match evs with
  | [] => Some st
  | ev :: evs => st' ← step ev st; run evs st'
  end.

(** What the panel under an event of the list shows. *)
Inductive panel :=
| NoPanel
| LoadingPanel
| DetailsPanel (details : Feature)
| FailedPanel.

Definition render_panel (earthquake : Feature) (st : state) : panel :=
  if bool_decide (selectedEvent st = Some (id earthquake)) then
    if loadingDetails st then LoadingPanel
    else match eventDetails st with
         | Some details => DetailsPanel details
         | None => FailedPanel
         end
  else NoPanel.

End Details.

(** ** Sample events *)

Module Sample.

(** Two events, of magnitude 1.5 and 5.5, the first one older. *)
Definition tremor : Feature :=
  {| id := "tremor";
     geometry := {| coordinates := [Some 10; Some 20; Some 5]%float |};
     properties := {| mag := Some 1.5%float; place := "north";
                      time := 500; felt := None |} |}.

Definition quake : Feature :=
  {| id := "quake";
     geometry := {| coordinates := [Some 30; Some 40; Some 80]%float |};
     properties := {| mag := Some 5.5%float; place := "south";
                      time := 600; felt := None |} |}.

(** An event the feed gives no magnitude for. *)
Definition unrated : Feature :=
  {| id := "unrated";
     geometry := {| coordinates := [Some 10; Some 20; Some 5]%float |};
     properties := {| mag := None; place := "offshore"; time := 700;
                      felt := None |} |}.

(** A snapshot with the magnitudes and the depths of the specification's
    scenarios, and an event of magnitude exactly 7 above sea level. *)
Definition scenarios : list Feature :=
  (λ md : float * float,
     {| id := "s";
        geometry := {| coordinates := [Some 0; Some 0; Some md.2]%float |};
        properties := {| mag := Some md.1; place := ""; time := 0;
                         felt := None |} |})
    <$> [ (3.2, 10); (4.5, 70); (6.9, 299); (7.1, 300); (7, -1) ]%float.

End Sample.

(* ===================================================================== *)
(** * Part II: the vocabulary of the properties                           *)
(* ===================================================================== *)

Module Spec.

Import JS App Sample.

(** ** The query builder *)

(** The optional parameters: the field of the filter object each one is
    read from, and its name in the query. *)
Definition optional_parameters : list (string * string) :=
  [ ("minMagnitude", "minmagnitude"); ("maxMagnitude", "maxmagnitude");
    ("minDepth", "mindepth"); ("maxDepth", "maxdepth");
    ("latitude", "latitude"); ("longitude", "longitude");
    ("radius", "maxradiuskm") ]%string.

(** The entries one optional parameter contributes. *)
Definition optional (filterOptions : gmap string value)
    (p : string * string) : URLSearchParams :=
  if ToBoolean (get filterOptions p.1)
  then [(p.2, ToString (get filterOptions p.1))]
  else [].

(** The window of a time range, as the specification gives it: hour 1h,
    day 24h, week 7d, month 30d, and the day's window for any other
    value. *)
Inductive durationFor : value → Z → Prop :=
| duration_hour : durationFor (Str "hour") 3600000
| duration_day : durationFor (Str "day") 86400000
| duration_week : durationFor (Str "week") 604800000
| duration_month : durationFor (Str "month") 2592000000
| duration_other timeRange :
    timeRange ∉ [Str "hour"; Str "day"; Str "week"; Str "month"] →
    durationFor timeRange 86400000.

(** The start of the window as the [switch] computes it. *)
Definition startTime (now : Z) (timeRange : value) : Z :=
  if strict_equals timeRange (Str "hour") then now - 60 * 60 * 1000
  else if strict_equals timeRange (Str "day") then now - 24 * 60 * 60 * 1000
  else if strict_equals timeRange (Str "week") then now - 7 * 24 * 60 * 60 * 1000
  else if strict_equals timeRange (Str "month") then now - 30 * 24 * 60 * 60 * 1000
  else now - 24 * 60 * 60 * 1000.

(** The configuration of the specification's scenario. *)
Definition scenario : gmap string value :=
  list_to_map
    [ ("timeRange"%string, Str "week"); ("minMagnitude"%string, Num 2);
      ("maxMagnitude"%string, Num 0); ("limit"%string, Num 250) ].

(** ** Fetching and the refresh cycle *)

(** The events a settled fetch stands for, as the specification has it: the
    parsed events of a successful response, none when that response has no
    [features] field, and none when the fetch failed. *)
Definition snapshot_of (r : fetched) : list Feature :=
  match r with
  | Response status (JsonObject (Some features)) =>
      if ok status then features else []
  | _ => []
  end.

(** A fetch failure: a network error, or a status that is not a success. *)
Inductive failure : fetched → Prop :=
| failure_network : failure Rejected
| failure_status status json :
    ok status = false → failure (Response status json).

(** The Snapshot shown is that of the request that settled last. *)
Definition shows_last_settled (w : world) : Prop :=
  earthquakeData w =
    from_option (λ s : request * fetched, snapshot_of s.2) []
      (last (settled w)).

(** The request sent last was built from the filters in effect. *)
Definition latest_is_current (w : world) : Prop :=
  ∀ rq, last (issued w) = Some rq →
        ∃ now, query rq = buildUSGSQuery now (filters w).

(** Requests settle in the order they were sent. *)
Definition in_order (evs : list event) : Prop :=
  Forall (λ ev, ∀ i r, ev = Settle i r → i = 0%nat) evs.

(** The filters change while the first request is on its way, and the
    request sent under the new filters settles before the first one. *)
Definition overtaken : list event :=
  [ Mount 1000;
    UpdateFilter "minMagnitude" (Num 5) 2000;
    Settle 1 (Response 200 (JsonObject (Some [quake])));
    Settle 0 (Response 200 (JsonObject (Some [tremor; quake]))) ].

(** ** Bands and bins *)

(** JSON has no notation for NaN, so no number of a parsed response is
    NaN. *)
Definition parsed (eq : Feature) : Prop :=
  (∀ m, mag (properties eq) = Some m → JSNum.isNaN m = false)
  ∧ (∀ d, depth_of eq = Some d → JSNum.isNaN d = false).

(** The bands, in ascending order. *)
Definition magnitude_bands : list (float → bool) :=
  [Statistics.minor; Statistics.light; Statistics.moderate;
   Statistics.strong; Statistics.major].

Definition depth_bands : list (float → bool) :=
  [Statistics.shallow; Statistics.intermediate; Statistics.deep].

(** The test of bin [i]. *)
Definition in_bin (i : nat) (v : float) : bool :=
  JSNum.le (Statistics.edge i) v
  && (if (i =? 19)%nat then JSNum.le v (Statistics.edge 20)
      else JSNum.lt v (Statistics.edge (S i))).

(** The test of the domain [[0, 10]]. *)
Definition in_domain (v : float) : bool := JSNum.le 0 v && JSNum.le v 10.

(** ** The events as the specification describes them *)

(** The magnitude of an event, which may be null. *)
Definition magnitude (eq : Feature) : option float := mag (properties eq).

(** The depth of an event in kilometres: the third coordinate, which may be
    absent or null. *)
Definition depthKm (eq : Feature) : option float :=
  match coordinates (geometry eq) with
  | _ :: _ :: depth :: _ => depth
  | _ => None
  end.

(** The time of an event, in milliseconds. *)
Definition timeMs (eq : Feature) : Z := time (properties eq).

(** Neither the magnitude nor the depth of the event is NaN, which JSON has
    no notation for. *)
Definition numbers (eq : Feature) : Prop :=
  (∀ m, magnitude eq = Some m → JSNum.isNaN m = false)
  ∧ (∀ d, depthKm eq = Some d → JSNum.isNaN d = false).

(** A band: the numbers from its lower end, which belongs to it, to its
    upper end, which does not; [None] is an end that is not there. *)
Definition band : Type := option float * option float.

Definition within (b : band) (x : float) : bool :=
  from_option (λ lower, JSNum.le lower x) true b.1
  && from_option (λ upper, JSNum.lt x upper) true b.2.

(** The number of events whose value is a number of the band, and the number
    of events that have the value at all. *)
Definition count_within (value : Feature → option float) (b : band)
    (earthquakeData : list Feature) : nat :=
  length (List.filter (λ eq, from_option (within b) false (value eq))
            earthquakeData).

Definition count_present (value : Feature → option float)
    (earthquakeData : list Feature) : nat :=
  length (List.filter (λ eq, bool_decide (is_Some (value eq)))
            earthquakeData).

(** The bands of the magnitude, under the names their counts are shown by:
    below 4, from 4 to 5, from 5 to 6, from 6 to 7, and from 7 on. *)
Definition magnitude_intervals : list (string * band) :=
  [ ("minor", (None, Some 4)); ("light", (Some 4, Some 5));
    ("moderate", (Some 5, Some 6)); ("strong", (Some 6, Some 7));
    ("major", (Some 7, None)) ]%float%string.

(** The bands of the depth: below 70, from 70 to 300, and from 300 on.  The
    shallow band has no lower end. *)
Definition depth_intervals : list (string * band) :=
  [ ("shallow", (None, Some 70)); ("intermediate", (Some 70, Some 300));
    ("deep", (Some 300, None)) ]%float%string.

(** The bands of the depth with a shallow band that starts at 0. *)
Definition depth_intervals_from_0 : list (string * band) :=
  [ ("shallow", (Some 0, Some 70)); ("intermediate", (Some 70, Some 300));
    ("deep", (Some 300, None)) ]%float%string.

(** An event one kilometre above sea level. *)
Definition above_sea_level : Feature :=
  {| id := "summit";
     geometry := {| coordinates := [Some 10; Some 20; Some (-1)]%float |};
     properties := {| mag := Some 2%float; place := "summit"; time := 800;
                      felt := None |} |}.

(** The magnitudes, in the order of the events, that are numbers with the
    property [p]. *)
Definition magnitudes_where (p : float → bool)
    (earthquakeData : list Feature) : list float :=
  omap (λ eq, match magnitude eq with
              | Some m => if p m then Some m else None
              | None => None
              end) earthquakeData.

(** ** Orders *)

(** A list in the order of a key, and in its strict order. *)
Definition ordered {A} (key : A → Z) (l : list A) : Prop :=
  StronglySorted (λ a b, key a ≤ key b) l.

Definition strictly_ordered {A} (key : A → Z) (l : list A) : Prop :=
  StronglySorted (λ a b, key a < key b) l.

(** Two events, the older one first. *)
Definition oldest_first : list Feature := [tremor; quake].

Definition newer_first (l : list Feature) : Prop :=
  StronglySorted
    (λ a b, time (properties b) ≤ time (properties a)) l.

(** ** Hourly activity *)

(** The number of events that are [h] whole hours old. *)
Definition events_at (now : Z) (earthquakeData : list Feature) (h : Z) : nat :=
  length (List.filter (λ eq, bool_decide (Timeline.hoursAgo now eq = h))
            earthquakeData).

(** An event is [h] whole hours old, [h = floor((now - timeMs) / 1h)]:
    [h] hours have passed since it, and [h + 1] hours have not. *)
Definition whole_hours (now : Z) (eq : Feature) (h : Z) : Prop :=
  h * 3600000 ≤ now - timeMs eq < (h + 1) * 3600000.

(** The number of events that are [h] whole hours old. *)
Definition events_aged (now : Z) (earthquakeData : list Feature) (h : Z) :
  nat :=
  length (List.filter (λ eq, bool_decide (whole_hours now eq h))
            earthquakeData).

(** Thirty events an hour apart, and a time half an hour after the last of
    them: the events are 0, 1, ..., 29 whole hours old. *)
Definition every_hour : list Feature :=
  (λ k, {| id := "hourly"; geometry := {| coordinates := [] |};
           properties := {| mag := None; place := ""; time := k * 3600000;
                            felt := None |} |})
    <$> seqZ 0 30.

Definition half_past : Z := 29 * 3600000 + 1800000.

(** An entry of [hourBuckets] as [{ hours, count }]. *)
Definition entry (hc : Z * nat) : Timeline.bucket :=
  {| Timeline.hours := hc.1; Timeline.count := hc.2 |}.

(** ** The shape of a query *)

(** Every parameter name, in the order the builder appends them. *)
Definition parameter_names : list string :=
  [ "format"; "limit"; "starttime"; "endtime"; "minmagnitude"; "maxmagnitude";
    "mindepth"; "maxdepth"; "latitude"; "longitude"; "maxradiuskm";
    "orderby" ]%string.

(** The fields of the filter object the builder reads. *)
Definition read_fields : list string :=
  [ "limit"; "timeRange"; "minMagnitude"; "maxMagnitude"; "minDepth";
    "maxDepth"; "latitude"; "longitude"; "radius" ]%string.

(** ** The refresh cycle *)

(** An event that calls [fetchEarthquakeData]. *)
Definition is_trigger (ev : event) : bool :=
  match ev with
  | Settle _ _ => false
  | _ => true
  end.

(** The filters after the changes an event asks for. *)
Definition change (f : gmap string value) (ev : event) : gmap string value :=
  match ev with
  | UpdateFilter key v _ => <[key := v]> f
  | _ => f
  end.

(** ** Colours *)



(** ** The map and the details *)

(** A number other than [0], [-0] and NaN. *)
Definition nonzero (x : option float) : Prop :=
  ∃ n, x = Some n ∧ JSNum.isZero n = false ∧ JSNum.isNaN n = false.

(** [earthquake.geometry.coordinates[i]] *)
Definition coordinate (i : nat) (earthquake : Feature) : option float :=
  mjoin (coordinates (geometry earthquake) !! i).

(** The circles on the map are the ones [markersRef] holds. *)
Definition in_step (st : EarthquakeMap.state) : Prop :=
  match EarthquakeMap.map st with
  | Some layers => layers = EarthquakeMap.markersRef st
  | None => EarthquakeMap.markersRef st = []
  end.

(** The selection after a click on an event: the event, or nothing when
    it was the one selected. *)
Definition toggle (selected : option string) (ev : Details.event) :
  option string :=
  match ev with
  | Details.Click earthquake =>
      if bool_decide (selected = Some (id earthquake)) then None
      else Some (id earthquake)
  | Details.Settle _ _ => selected
  end.

(** The first feature of a response that has a [features] array. *)
Definition first_feature (r : fetched) : option Feature :=
  match r with
  | Response _ (JsonObject (Some features)) => head features
  | _ => None
  end.

(** A click on [tremor], a click on [quake], and the details of [tremor]
    arrive. *)
Definition late_details : list Details.event :=
  [ Details.Click tremor; Details.Click quake;
    Details.Settle 0 (Response 200 (JsonObject (Some [tremor]))) ].

End Spec.

(* ===================================================================== *)
(** * Part III: properties                                                *)
(* ===================================================================== *)

(** ** The query builder *)

Module QueryBuilder.

Import JS App Spec.

Lemma getAll_app name (q1 q2 : URLSearchParams) :
  getAll name (q1 ++ q2) = getAll name q1 ++ getAll name q2.
Proof. unfold getAll. by rewrite filter_app, fmap_app. Qed.

Lemma append_if (b : bool) (q : URLSearchParams) name v :
  (if b then append q name v else q) = q ++ (if b then [(name, v)] else []).
Proof. destruct b; [done|by rewrite app_nil_r]. Qed.

Lemma strict_equals_Str v s : strict_equals v (Str s) = true ↔ v = Str s.
Proof.
  destruct v as [| | |?|s']; simpl; try (split; [discriminate|congruence]).
  rewrite String.eqb_eq. split; congruence.
Qed.

Lemma strict_equals_Str_ne v s : v ≠ Str s → strict_equals v (Str s) = false.
Proof.
  intros Hne. destruct (strict_equals v (Str s)) eqn:E; [|done].
  by apply strict_equals_Str in E.
Qed.

Lemma strict_equals_zero_falsy v :
  strict_equals v (Num 0) = true → ToBoolean v = false.
Proof.
  destruct v as [| | |n|]; simpl; try discriminate.
  unfold JSNum.isZero. by intros ->.
Qed.

(** The query, in the order its entries are appended. *)
Lemma buildUSGSQuery_search now filterOptions :
  search (buildUSGSQuery now filterOptions) =
    [ ("format"%string, ToString (Str "geojson"));
      ("limit"%string, ToString (or (get filterOptions "limit") (Num 100)));
      ("starttime"%string,
       ToISOString (startTime now (get filterOptions "timeRange")));
      ("endtime"%string, ToISOString now) ]
    ++ concat (optional filterOptions <$> optional_parameters)
    ++ [ ("orderby"%string, ToString (Str "time")) ].
Proof.
  unfold buildUSGSQuery. cbv zeta. unfold search.
  rewrite !append_if. unfold append, optional. simpl.
  rewrite <- !app_assoc. reflexivity.
Qed.

Lemma getAll_optional filterOptions name p :
  getAll name (optional filterOptions p) =
    if decide (p.2 = name)
    then (if ToBoolean (get filterOptions p.1)
          then [ToString (get filterOptions p.1)] else [])
    else [].
Proof.
  unfold optional, getAll.
  destruct (ToBoolean _); simpl; [|by destruct (decide _)].
  rewrite filter_cons. simpl. by destruct (decide _).
Qed.

(** An optional parameter is in the query once, with the value of its
    field, when that value is truthy, and not at all otherwise. *)
Lemma getAll_optional_parameter now filterOptions field name :
  (field, name) ∈ optional_parameters →
  getAll name (search (buildUSGSQuery now filterOptions)) =
    if ToBoolean (get filterOptions field)
    then [ToString (get filterOptions field)] else [].
Proof.
  intros Hin. rewrite buildUSGSQuery_search.
  unfold optional_parameters in *. simpl concat.
  rewrite !getAll_app, !getAll_optional.
  rewrite !elem_of_cons, elem_of_nil in Hin.
  repeat destruct Hin as [Hin|Hin]; try done; simplify_eq; simpl;
    by rewrite ?app_nil_r.
Qed.

Lemma getAll_fixed_parameters now filterOptions :
  getAll "limit" (search (buildUSGSQuery now filterOptions)) =
    [ToString (or (get filterOptions "limit") (Num 100))]
  ∧ getAll "starttime" (search (buildUSGSQuery now filterOptions)) =
    [ToISOString (startTime now (get filterOptions "timeRange"))]
  ∧ getAll "endtime" (search (buildUSGSQuery now filterOptions)) =
    [ToISOString now].
Proof.
  rewrite buildUSGSQuery_search. unfold optional_parameters. simpl concat.
  rewrite !getAll_app, !getAll_optional. simpl. done.
Qed.

Lemma startTime_durationFor now timeRange d :
  durationFor timeRange d → startTime now timeRange = now - d.
Proof.
  unfold startTime. destruct 1 as [| | | |timeRange Hother]; try reflexivity.
  rewrite !not_elem_of_cons in Hother.
  destruct Hother as (? & ? & ? & ? & _).
  by rewrite !strict_equals_Str_ne.
Qed.

(** The specification's window is defined on every value. *)
Lemma durationFor_total timeRange : ∃ d, durationFor timeRange d.
Proof.
  destruct timeRange as [| | | |s];
    try (eexists; apply duration_other; rewrite !not_elem_of_cons;
         repeat split; (discriminate || apply not_elem_of_nil)).
  destruct (decide (s = "hour")) as [->|]; [eexists; constructor|].
  destruct (decide (s = "day")) as [->|]; [eexists; constructor|].
  destruct (decide (s = "week")) as [->|]; [eexists; constructor|].
  destruct (decide (s = "month")) as [->|]; [eexists; constructor|].
  eexists. apply duration_other. rewrite !not_elem_of_cons.
  repeat split; (congruence || apply not_elem_of_nil).
Qed.

(** *** The time window *)

(** C6: for every time range that is none of hour, day, week and month the
    query asks for the 24 hours before [now] instead of failing; hour asks
    for 1 hour, day for 24 hours, week for 7 days and month for 30 days; the
    window ends at [now] in all cases. *)
Theorem buildUSGSQuery_time_window now filterOptions d :
  durationFor (get filterOptions "timeRange") d →
  getAll "starttime" (search (buildUSGSQuery now filterOptions)) =
    [ToISOString (now - d)]
  ∧ getAll "endtime" (search (buildUSGSQuery now filterOptions)) =
    [ToISOString now].
Proof.
  intros Hd.
  destruct (getAll_fixed_parameters now filterOptions) as (_ & -> & ->).
  by rewrite (startTime_durationFor _ _ d).
Qed.

Lemma buildUSGSQuery_time_window_unknown :
  durationFor (Str "year") 86400000
  ∧ getAll "starttime"
      (search (buildUSGSQuery 1000000000000
                 (<["timeRange" := Str "year"]> scenario))) =
    [ToISOString 999913600000]
  ∧ getAll "endtime"
      (search (buildUSGSQuery 1000000000000
                 (<["timeRange" := Str "year"]> scenario))) =
    [ToISOString 1000000000000].
Proof.
  assert (Hd : durationFor (Str "year") 86400000).
  { apply duration_other. rewrite !not_elem_of_cons.
    repeat split; (discriminate || apply not_elem_of_nil). }
  split; [exact Hd|].
  exact (buildUSGSQuery_time_window 1000000000000
           (<["timeRange" := Str "year"]> scenario) 86400000 Hd).
Defined.

(** The specification's scenario: a week's window and [minmagnitude=2]. *)
Example buildUSGSQuery_scenario :
  search (buildUSGSQuery 1000000000000 scenario) =
    [ ("format", ToString (Str "geojson")); ("limit", ToString (Num 250));
      ("starttime", ToISOString (1000000000000 - 7 * 86400000));
      ("endtime", ToISOString 1000000000000);
      ("minmagnitude", ToString (Num 2));
      ("orderby", ToString (Str "time")) ]%string.
Proof. vm_compute. reflexivity. Qed.

(** *** Optional parameters *)

(** C1, as the claim has it, fails: a [maxMagnitude] of 0 is not treated as
    present.  On the scenario's configuration, whose [maxMagnitude] is 0, the
    query has no [maxmagnitude] parameter. *)
Lemma zero_magnitude_bound_not_emitted :
  ¬ (∀ now filterOptions,
       strict_equals (get filterOptions "maxMagnitude") (Num 0) = true →
       has "maxmagnitude" (search (buildUSGSQuery now filterOptions)) = true).
Proof.
  intros H. specialize (H 1000000000000 scenario eq_refl).
  vm_compute in H. discriminate.
Qed.

(** C1, amended: each optional parameter (minmagnitude, maxmagnitude,
    mindepth, maxdepth, latitude, longitude, maxradiuskm) is in the query,
    once and with the value of its field, exactly when that field is truthy;
    a [minMagnitude] or [maxMagnitude] equal to 0 is falsy like any other
    zero, and its parameter is left out. *)
Theorem optional_parameter_iff_truthy now filterOptions :
  Forall (λ p,
            getAll p.2 (search (buildUSGSQuery now filterOptions)) =
              if ToBoolean (get filterOptions p.1)
              then [ToString (get filterOptions p.1)] else [])
    optional_parameters
  ∧ Forall (λ p,
              strict_equals (get filterOptions p.1) (Num 0) = true →
              has p.2 (search (buildUSGSQuery now filterOptions)) = false)
      [ ("minMagnitude", "minmagnitude"); ("maxMagnitude", "maxmagnitude") ]%string.
Proof.
  split.
  - apply Forall_forall. intros [field name] Hin.
    by apply getAll_optional_parameter.
  - apply Forall_forall. intros [field name] Hin Hzero. cbn [fst snd] in *. unfold has.
    rewrite (getAll_optional_parameter now filterOptions field name).
    + rewrite (strict_equals_zero_falsy _ Hzero). reflexivity.
    + unfold optional_parameters. rewrite !elem_of_cons, elem_of_nil in Hin.
      rewrite !elem_of_cons. tauto.
Qed.

Lemma optional_parameter_iff_truthy_scenario :
  getAll "minmagnitude" (search (buildUSGSQuery 1000000000000 scenario)) =
    [ToString (Num 2)]
  ∧ has "maxmagnitude" (search (buildUSGSQuery 1000000000000 scenario)) = false.
Proof.
  destruct (optional_parameter_iff_truthy 1000000000000 scenario) as [H1 H2].
  split.
  - exact (Forall_inv H1).
  - exact (Forall_inv (Forall_inv_tail H2) eq_refl).
Defined.

(** C10: a [minDepth], [maxDepth], [latitude], [longitude] or [radius] equal
    to 0 leaves its parameter out of the query altogether (so a search
    centred on the equator or on the prime meridian cannot be asked for),
    and a [limit] that is 0 or absent is replaced by 100. *)
Theorem zero_field_omitted_and_limit_defaulted now filterOptions :
  Forall (λ p,
            strict_equals (get filterOptions p.1) (Num 0) = true →
            has p.2 (search (buildUSGSQuery now filterOptions)) = false)
    [ ("minDepth", "mindepth"); ("maxDepth", "maxdepth");
      ("latitude", "latitude"); ("longitude", "longitude");
      ("radius", "maxradiuskm") ]%string
  ∧ (strict_equals (get filterOptions "limit") (Num 0) = true
     ∨ filterOptions !! "limit"%string = None →
     getAll "limit" (search (buildUSGSQuery now filterOptions)) =
       [ToString (Num 100)]).
Proof.
  split.
  - apply Forall_forall. intros [field name] Hin Hzero. cbn [fst snd] in *. unfold has.
    rewrite (getAll_optional_parameter now filterOptions field name).
    + rewrite (strict_equals_zero_falsy _ Hzero). reflexivity.
    + unfold optional_parameters. rewrite !elem_of_cons, elem_of_nil in Hin.
      rewrite !elem_of_cons. tauto.
  - intros Hlimit.
    destruct (getAll_fixed_parameters now filterOptions) as (-> & _).
    unfold or. destruct Hlimit as [Hzero|Habsent].
    + by rewrite (strict_equals_zero_falsy _ Hzero).
    + unfold get. by rewrite Habsent.
Qed.

Lemma zero_field_omitted_and_limit_defaulted_equator :
  has "latitude"
    (search (buildUSGSQuery 1000000000000
               (<["latitude" := Num 0]> (<["limit" := Num 0]> scenario)))) =
    false
  ∧ getAll "limit"
      (search (buildUSGSQuery 1000000000000
                 (<["latitude" := Num 0]> (<["limit" := Num 0]> scenario)))) =
    [ToString (Num 100)].
Proof.
  destruct (zero_field_omitted_and_limit_defaulted 1000000000000
              (<["latitude" := Num 0]> (<["limit" := Num 0]> scenario)))
    as [H1 H2].
  split.
  - exact (Forall_inv (Forall_inv_tail (Forall_inv_tail H1)) eq_refl).
  - exact (H2 (or_introl eq_refl)).
Defined.

End QueryBuilder.

(** ** Fetching and the refresh cycle *)

Module Refresh.

Import JS App Sample Spec.

Lemma resume_cases r w :
  fetchEarthquakeData_resume r w =
    (None,
     setLoading false
       (match r with
        | Rejected =>
            setEarthquakeData [] (console_write (error_fetching NetworkError) w)
        | Response status json =>
            if ok status then
              match json with
              | Unparsable =>
                  setEarthquakeData []
                    (console_write (error_fetching SyntaxError) w)
              | JsonNull =>
                  setEarthquakeData []
                    (console_write (error_fetching TypeError)
                       (console_write (log_fetched json) w))
              | JsonObject features =>
                  setEarthquakeData (default [] features)
                    (console_write (log_fetched json) w)
              end
            else
              setEarthquakeData []
                (console_write (error_fetching (HTTPError status)) w)
        end)).
Proof.
  unfold fetchEarthquakeData_resume, try_catch_finally, fetchEarthquakeData_try.
  destruct r as [|status json]; [done|].
  destruct (ok status); simpl; [|done].
  by destruct json.
Qed.

(** Settling replaces the Snapshot, whatever the state was. *)
Lemma resume_earthquakeData r w :
  earthquakeData (fetchEarthquakeData_resume r w).2 = snapshot_of r.
Proof.
  rewrite resume_cases. destruct r as [|status json]; [done|].
  unfold snapshot_of. destruct (ok status); [|by destruct json as [| |[|]]].
  by destruct json as [| |[|]].
Qed.

Lemma resume_frame r w :
  let w' := (fetchEarthquakeData_resume r w).2 in
  filters w' = filters w ∧ interval w' = interval w
  ∧ inflight w' = inflight w ∧ issued w' = issued w ∧ settled w' = settled w
  ∧ loading w' = false.
Proof.
  rewrite resume_cases. destruct r as [|status json]; [done|].
  destruct (ok status); [|done]. by destruct json.
Qed.

(** A property kept by every step holds after every run. *)
Lemma run_invariant (P : world → Prop) :
  (∀ ev w w', P w → step ev w = Some w' → P w') →
  ∀ evs w w', P w → run evs w = Some w' → P w'.
Proof.
  intros Hstep evs. induction evs as [|ev evs IH]; intros w w' HP Hrun;
    simpl in Hrun; [by simplify_eq|].
  destruct (step ev w) as [w1|] eqn:E; simpl in Hrun; [|done].
  eapply IH; [|exact Hrun]. by eapply Hstep.
Qed.

Lemma step_shows_last_settled ev w w' :
  shows_last_settled w → step ev w = Some w' → shows_last_settled w'.
Proof.
  unfold shows_last_settled. intros HP Hstep.
  destruct ev as [now|key v now|now|i r]; simpl in Hstep.
  - destruct (interval w); simplify_eq. exact HP.
  - destruct (interval w); simplify_eq. exact HP.
  - destruct (interval w); simplify_eq. exact HP.
  - destruct (inflight w !! i) as [rq|] eqn:E; simpl in Hstep; simplify_eq.
    rewrite resume_earthquakeData.
    destruct (resume_frame r (receive i rq r w)) as (_ & _ & _ & _ & -> & _).
    simpl. by rewrite last_snoc.
Qed.

Lemma step_latest_is_current ev w w' :
  latest_is_current w → step ev w = Some w' → latest_is_current w'.
Proof.
  unfold latest_is_current. intros HP Hstep rq.
  destruct ev as [now|key v now|now|i r]; simpl in Hstep.
  - destruct (interval w); simplify_eq. simpl. rewrite last_snoc.
    intros [= <-]. by exists now.
  - destruct (interval w); simplify_eq. simpl. rewrite last_snoc.
    intros [= <-]. by exists now.
  - destruct (interval w); simplify_eq. simpl. rewrite last_snoc.
    intros [= <-]. by exists now.
  - destruct (inflight w !! i) as [rq'|] eqn:E; simpl in Hstep; simplify_eq.
    destruct (resume_frame r (receive i rq' r w)) as (-> & _ & _ & -> & _ & _).
    simpl. apply HP.
Qed.

(** When requests settle in order, the ones sent are the ones settled
    followed by the ones on their way. *)
Lemma step_in_order ev w w' :
  (∀ i r, ev = Settle i r → i = 0%nat) →
  issued w = (settled w).*1 ++ inflight w → step ev w = Some w' →
  issued w' = (settled w').*1 ++ inflight w'.
Proof.
  intros Hev HP Hstep.
  destruct ev as [now|key v now|now|i r]; simpl in Hstep.
  - destruct (interval w); simplify_eq. simpl. by rewrite HP, app_assoc.
  - destruct (interval w); simplify_eq. simpl. by rewrite HP, app_assoc.
  - destruct (interval w); simplify_eq. simpl. by rewrite HP, app_assoc.
  - rewrite (Hev i r eq_refl) in Hstep.
    destruct (inflight w) as [|rq rest] eqn:E; simpl in Hstep; simplify_eq.
    destruct (resume_frame r (receive 0 rq r w)) as (_ & _ & -> & -> & -> & _).
    simpl. rewrite HP, E, fmap_app. simpl. by rewrite <- app_assoc.
Qed.

Lemma run_in_order evs w w' :
  in_order evs → issued w = (settled w).*1 ++ inflight w →
  run evs w = Some w' → issued w' = (settled w').*1 ++ inflight w'.
Proof.
  unfold in_order. revert w. induction evs as [|ev evs IH]; intros w Hevs HP Hrun;
    simpl in Hrun; [by simplify_eq|].
  destruct (step ev w) as [w1|] eqn:E; simpl in Hrun; [|done].
  apply (IH w1); [by eapply Forall_inv_tail| |done].
  eapply step_in_order; [|done..]. exact (Forall_inv Hevs).
Qed.

(** *** Failures *)

(** C8: when the fetch fails (a network error, or a status that is not a
    success) the Snapshot is replaced with the empty sequence and the failure
    is only written to the console: the call completes normally and clears
    the loading flag.  A successful response whose body has no [features]
    field also replaces the Snapshot with the empty list. *)
Theorem fetch_failure_empties_snapshot r now w :
  let query := buildUSGSQuery now (filters w) in
  let result := fetchEarthquakeData r now w in
  (failure r →
   result.1 = None
   ∧ earthquakeData result.2 = []
   ∧ loading result.2 = false
   ∧ ∃ e, console result.2 =
            console w ++ [log_fetching query; error_fetching e])
  ∧ (∀ status,
       ok status = true → r = Response status (JsonObject None) →
       result.1 = None ∧ earthquakeData result.2 = []).
Proof.
  cbv zeta. unfold fetchEarthquakeData, fetchEarthquakeData_call.
  change (filters (setLoading true w)) with (filters w).
  rewrite resume_cases. split.
  - intros Hfail. split; [done|].
    destruct Hfail as [|status json Hok].
    + simpl. split; [done|]. split; [done|].
      eexists. by rewrite <- app_assoc.
    + rewrite Hok. simpl. split; [done|]. split; [done|].
      eexists. by rewrite <- app_assoc.
  - intros status Hok ->. rewrite Hok. done.
Qed.

Lemma fetch_failure_empties_snapshot_503 :
  earthquakeData
    (fetchEarthquakeData (Response 503 Unparsable) 1000
       (setEarthquakeData [quake] initial)).2 = [].
Proof.
  exact (proj1 (proj2 (proj1
    (fetch_failure_empties_snapshot (Response 503 Unparsable) 1000
       (setEarthquakeData [quake] initial))
    (failure_status 503 Unparsable eq_refl)))).
Defined.

(** *** A change of filters while a request is on its way *)

(** C9, as the claim has it, fails: in the run [overtaken] the request sent
    under the first filters settles after the one sent under the new
    filters, and its events replace the newer ones. *)
Lemma stale_result_overwrites_newer :
  ¬ (∀ evs w rq,
       run evs initial = Some w → inflight w = [] →
       last (issued w) = Some rq →
       ∃ r, (rq, r) ∈ settled w ∧ earthquakeData w = snapshot_of r).
Proof.
  intros H.
  assert (∃ w rq,
            run overtaken initial = Some w ∧ inflight w = []
            ∧ last (issued w) = Some rq
            ∧ ∀ r, (rq, r) ∈ settled w →
                   length (earthquakeData w) ≠ length (snapshot_of r))
    as (w & rq & Hrun & Hnone & Hlast & Hne).
  { do 2 eexists. split; [vm_compute; reflexivity|].
    split; [reflexivity|]. split; [reflexivity|].
    intros r Hr. apply list_elem_of_In in Hr. vm_compute in Hr.
    destruct Hr as [Hr|[Hr|[]]]; [|discriminate Hr]. injection Hr as <-.
    vm_compute. discriminate. }
  destruct (H overtaken w rq Hrun Hnone Hlast) as (r & Hr & Hdata).
  apply (Hne r Hr). by rewrite Hdata.
Qed.

(** C9, amended: a request that settles replaces the Snapshot whatever the
    filters are by then, so the Snapshot is always that of the request that
    settled last (and empty before any has).  The request sent last is the
    one built from the current filters; the final Snapshot is that request's
    when the requests settle in the order they were sent. *)
Theorem snapshot_is_last_settled evs w :
  run evs initial = Some w →
  shows_last_settled w
  ∧ latest_is_current w
  ∧ (in_order evs → inflight w = [] →
     fst <$> last (settled w) = last (issued w)).
Proof.
  intros Hrun. split; [|split].
  - eapply (run_invariant shows_last_settled);
      [apply step_shows_last_settled| |exact Hrun].
    reflexivity.
  - eapply (run_invariant latest_is_current);
      [apply step_latest_is_current| |exact Hrun].
    intros rq. discriminate.
  - intros Hord Hnone.
    rewrite (run_in_order evs initial w Hord eq_refl Hrun), Hnone, app_nil_r.
    by rewrite fmap_last.
Qed.

Lemma snapshot_is_last_settled_overtaken :
  match run overtaken initial with
  | Some w => shows_last_settled w ∧ earthquakeData w = [tremor; quake]
  | None => False
  end.
Proof.
  destruct (run overtaken initial) as [w|] eqn:Hrun.
  - split; [exact (proj1 (snapshot_is_last_settled overtaken w Hrun))|].
    vm_compute in Hrun. injection Hrun as <-. reflexivity.
  - vm_compute in Hrun. discriminate.
Defined.

End Refresh.

(** ** The order of numbers

    The comparisons of binary64 numbers, derived from their specification
    ([SFcompare] on the decoded sign, mantissa and exponent): away from NaN
    they form a total preorder, and NaN compares [false] with everything. *)

Module NumberOrder.

Import JSNum.

Ltac compare_cases :=
  repeat match goal with
         | H : context [PosDef.Pos.compare_cont Eq ?a ?b] |- _ =>
             change (PosDef.Pos.compare_cont Eq a b) with (a ?= b)%positive in H
         | |- context [PosDef.Pos.compare_cont Eq ?a ?b] =>
             change (PosDef.Pos.compare_cont Eq a b) with (a ?= b)%positive
         end;
  repeat match goal with
         | H : context [(?a ?= ?b)%Z] |- _ => destruct (Z.compare_spec a b)
         | |- context [(?a ?= ?b)%Z] => destruct (Z.compare_spec a b)
         | H : context [(?a ?= ?b)%positive] |- _ =>
             destruct (Pos.compare_spec a b)
         | |- context [(?a ?= ?b)%positive] => destruct (Pos.compare_spec a b)
         end;
  simpl in *; try congruence; try lia.

Lemma SFcompare_refl x : x ≠ S754_nan → SFcompare x x = Some Eq.
Proof.
  destruct x as [s|s| |s m e]; simpl; try done; intros _.
  - by destruct s.
  - destruct s; f_equal; compare_cases.
Qed.

Lemma SFcompare_antisym x y : SFcompare x y = CompOpp <$> SFcompare y x.
Proof.
  destruct x as [s1|s1| |s1 m1 e1], y as [s2|s2| |s2 m2 e2]; simpl;
    try reflexivity;
    try (destruct s1; reflexivity); try (destruct s2; reflexivity);
    try (destruct s1, s2; reflexivity).
  destruct s1, s2; simpl; try reflexivity; f_equal; compare_cases.
Qed.

Lemma SFcompare_trans x y z c1 c2 :
  SFcompare x y = Some c1 → SFcompare y z = Some c2 →
  c1 ≠ Gt → c2 ≠ Gt →
  SFcompare x z = Some (match c1, c2 with Eq, Eq => Eq | _, _ => Lt end).
Proof.
  destruct x as [s1|s1| |s1 m1 e1], y as [s2|s2| |s2 m2 e2],
    z as [s3|s3| |s3 m3 e3]; simpl; try discriminate;
    repeat match goal with s : bool |- _ => destruct s end; simpl;
    intros H1 H2 N1 N2; simplify_eq; try done; f_equal; compare_cases.
Qed.

Lemma SFcompare_None x y :
  SFcompare x y = None ↔ x = S754_nan ∨ y = S754_nan.
Proof.
  destruct x as [s1|s1| |s1 m1 e1], y as [s2|s2| |s2 m2 e2]; simpl;
    split; try discriminate; try tauto; intros [|]; discriminate.
Qed.

Lemma isNaN_Prim2SF a : isNaN a = true ↔ Prim2SF a = S754_nan.
Proof.
  unfold isNaN, is_nan. rewrite FloatAxioms.eqb_spec. unfold SFeqb. split.
  - intros H. destruct (Prim2SF a) as [s|s| |s m e] eqn:E; try done;
      match type of H with
      | context [SFcompare ?x ?x] =>
          rewrite (SFcompare_refl x) in H by done
      end; done.
  - by intros ->.
Qed.

Lemma isNaN_false a : isNaN a = false ↔ Prim2SF a ≠ S754_nan.
Proof.
  rewrite <- isNaN_Prim2SF. by destruct (isNaN a).
Qed.

Lemma compare_defined a b :
  isNaN a = false → isNaN b = false →
  ∃ c, SFcompare (Prim2SF a) (Prim2SF b) = Some c.
Proof.
  rewrite !isNaN_false. intros Ha Hb.
  destruct (SFcompare (Prim2SF a) (Prim2SF b)) as [c|] eqn:E; [by eexists|].
  apply SFcompare_None in E. tauto.
Qed.


Lemma le_NaN a b : isNaN a = true ∨ isNaN b = true → le a b = false.
Proof.
  unfold le. rewrite FloatAxioms.leb_spec, !isNaN_Prim2SF. unfold SFleb.
  intros H. apply SFcompare_None in H. by rewrite H.
Qed.

(** Away from NaN, [a <= b] is the negation of [b < a]. *)
Lemma le_negb_lt a b :
  isNaN a = false → isNaN b = false → le a b = negb (lt b a).
Proof.
  intros Ha Hb. unfold le, lt. rewrite FloatAxioms.leb_spec, FloatAxioms.ltb_spec.
  unfold SFleb, SFltb. rewrite (SFcompare_antisym (Prim2SF a)).
  destruct (compare_defined b a Hb Ha) as [c ->]. by destruct c.
Qed.

Lemma lt_le a b : lt a b = true → le a b = true.
Proof.
  unfold le, lt. rewrite FloatAxioms.leb_spec, FloatAxioms.ltb_spec. unfold SFleb, SFltb.
  by destruct (SFcompare _ _) as [[]|].
Qed.

Lemma lt_trans a b c : lt a b = true → lt b c = true → lt a c = true.
Proof.
  unfold lt. rewrite !FloatAxioms.ltb_spec. unfold SFltb. intros H1 H2.
  destruct (SFcompare (Prim2SF a) (Prim2SF b)) as [[]|] eqn:E1; try done.
  destruct (SFcompare (Prim2SF b) (Prim2SF c)) as [[]|] eqn:E2; try done.
  by rewrite (SFcompare_trans _ _ _ _ _ E1 E2).
Qed.

Lemma le_lt_trans a b c : le a b = true → lt b c = true → lt a c = true.
Proof.
  unfold le, lt. rewrite FloatAxioms.leb_spec, !FloatAxioms.ltb_spec. unfold SFleb, SFltb.
  intros H1 H2.
  destruct (SFcompare (Prim2SF a) (Prim2SF b)) as [[]|] eqn:E1; try done;
    destruct (SFcompare (Prim2SF b) (Prim2SF c)) as [[]|] eqn:E2; try done;
    by rewrite (SFcompare_trans _ _ _ _ _ E1 E2).
Qed.

Lemma le_trans a b c : le a b = true → le b c = true → le a c = true.
Proof.
  unfold le. rewrite !FloatAxioms.leb_spec. unfold SFleb. intros H1 H2.
  destruct (SFcompare (Prim2SF a) (Prim2SF b)) as [[]|] eqn:E1; try done;
    destruct (SFcompare (Prim2SF b) (Prim2SF c)) as [[]|] eqn:E2; try done;
    by rewrite (SFcompare_trans _ _ _ _ _ E1 E2).
Qed.

Lemma le_isNaN a b : le a b = true → isNaN a = false ∧ isNaN b = false.
Proof.
  intros H. destruct (isNaN a) eqn:Ea; [by rewrite le_NaN in H; auto|].
  destruct (isNaN b) eqn:Eb; [by rewrite le_NaN in H; auto|]. done.
Qed.

End NumberOrder.

(** ** Counting by bands *)

Module Counting.

(** When every element satisfies as many of the predicates [ps] as
    [Nat.b2n (q x)] says (one if it satisfies [q], none otherwise), the
    counts of the predicates add up to the count of [q]. *)
Lemma sum_filter_cons {A} (ps : list (A → bool)) (x : A) (l : list A) :
  sum_list ((λ p, length (List.filter p (x :: l))) <$> ps) =
    (sum_list ((λ p, Nat.b2n (p x)) <$> ps)
     + sum_list ((λ p, length (List.filter p l)) <$> ps))%nat.
Proof.
  induction ps as [|p ps IH]; [done|].
  rewrite !fmap_cons. cbn [sum_list sum_list_with]. rewrite IH.
  cbn [List.filter]. destruct (p x); simpl; lia.
Qed.

Lemma sum_filter_lengths {A} (ps : list (A → bool)) (q : A → bool) (l : list A) :
  Forall (λ x, sum_list ((λ p, Nat.b2n (p x)) <$> ps) = Nat.b2n (q x)) l →
  sum_list ((λ p, length (List.filter p l)) <$> ps) = length (List.filter q l).
Proof.
  induction 1 as [|x l Hx _ IH].
  - induction ps as [|p ps IHps]; [done|].
    rewrite fmap_cons. cbn [sum_list sum_list_with]. by rewrite IHps.
  - rewrite sum_filter_cons, Hx, IH. simpl. by destruct (q x).
Qed.

Lemma filter_true_length {A} (l : list A) :
  length (List.filter (λ _, true) l) = length l.
Proof. induction l; simpl; congruence. Qed.

Lemma elem_of_filter_bool {A} (p : A → bool) (x : A) (l : list A) :
  x ∈ List.filter p l ↔ x ∈ l ∧ p x = true.
Proof. rewrite !list_elem_of_In. apply filter_In. Qed.

End Counting.

(** ** The statistics tab *)

Module Bands.

Import JSNum NumberOrder Statistics Counting Sample Spec.

(** Every number that is not NaN is in exactly one magnitude band. *)
Lemma magnitude_band_unique m :
  isNaN m = false →
  sum_list ((λ p, Nat.b2n (p m)) <$> magnitude_bands) = 1%nat.
Proof.
  intros Hm. unfold magnitude_bands, minor, light, moderate, strong, major, ge.
  simpl.
  rewrite !(le_negb_lt _ m) by done.
  pose proof (λ H, lt_trans m 4 5 H eq_refl) as H45.
  pose proof (λ H, lt_trans m 5 6 H eq_refl) as H56.
  pose proof (λ H, lt_trans m 6 7 H eq_refl) as H67.
  destruct (lt m 4); [rewrite H45, H56, H67 by auto; done|].
  destruct (lt m 5); [rewrite H56, H67 by auto; done|].
  destruct (lt m 6); [rewrite H67 by auto; done|].
  by destruct (lt m 7).
Qed.

(** Every number that is not NaN is in exactly one depth band. *)
Lemma depth_band_unique d :
  isNaN d = false →
  sum_list ((λ p, Nat.b2n (p d)) <$> depth_bands) = 1%nat.
Proof.
  intros Hd. unfold depth_bands, shallow, intermediate, deep, ge. simpl.
  rewrite !(le_negb_lt _ d) by done.
  pose proof (λ H, lt_trans d 70 300 H eq_refl) as H.
  destruct (lt d 70); [rewrite H by auto; done|].
  by destruct (lt d 300).
Qed.

Lemma parsed_magnitudes earthquakeData :
  Forall parsed earthquakeData →
  Forall (λ m, isNaN m = false) (magnitudes earthquakeData).
Proof.
  intros H. apply Forall_forall. intros m Hm.
  apply list_elem_of_omap in Hm as (eq & Heq & Hmag).
  rewrite Forall_forall in H. by apply (proj1 (H eq Heq)).
Qed.

Lemma parsed_depths earthquakeData :
  Forall parsed earthquakeData →
  Forall (λ d, isNaN d = false) (depths earthquakeData).
Proof.
  intros H. apply Forall_forall. intros d Hd.
  apply list_elem_of_omap in Hd as (eq & Heq & Hdepth).
  rewrite Forall_forall in H. by apply (proj2 (H eq Heq)).
Qed.

Lemma magnitude_counts_sum (ms : list float) :
  Forall (λ m, isNaN m = false) ms →
  sum_list ((λ p, length (List.filter p ms)) <$> magnitude_bands) = length ms.
Proof.
  intros H. rewrite <- (filter_true_length ms).
  apply sum_filter_lengths. eapply Forall_impl; [exact H|].
  intros m Hm. by apply magnitude_band_unique.
Qed.

Lemma depth_counts_sum (ds : list float) :
  Forall (λ d, isNaN d = false) ds →
  sum_list ((λ p, length (List.filter p ds)) <$> depth_bands) = length ds.
Proof.
  intros H. rewrite <- (filter_true_length ds).
  apply sum_filter_lengths. eapply Forall_impl; [exact H|].
  intros d Hd. by apply depth_band_unique.
Qed.

Lemma getMagnitudeStats_shown earthquakeData :
  shown_count (getMagnitudeStats earthquakeData)
    <$> ["minor"; "light"; "moderate"; "strong"; "major"]%string =
  (λ p, length (List.filter p (magnitudes earthquakeData))) <$> magnitude_bands.
Proof.
  unfold getMagnitudeStats. case_bool_decide as Hlen.
  - apply nil_length_inv in Hlen as ->. reflexivity.
  - unfold shown_count. simpl. by simplify_map_eq.
Qed.

Lemma getDepthDistribution_shown earthquakeData :
  shown_count (getDepthDistribution earthquakeData)
    <$> ["shallow"; "intermediate"; "deep"]%string =
  (λ p, length (List.filter p (depths earthquakeData))) <$> depth_bands.
Proof.
  unfold getDepthDistribution. case_bool_decide as Hlen.
  - apply nil_length_inv in Hlen as ->. reflexivity.
  - unfold shown_count. simpl. by simplify_map_eq.
Qed.

(** [getMagnitudeColor] draws the same five bands. *)
Lemma getMagnitudeColor_band m :
  isNaN m = false →
  Dashboard.getMagnitudeColor (Some m) =
    (if major m then "#e74c3c"
     else if strong m then "#f39c12"
     else if moderate m then "#f1c40f"
     else if light m then "#27ae60"
     else "#3498db")%string.
Proof.
  intros Hm. unfold Dashboard.getMagnitudeColor, major, strong, moderate, light.
  simpl. unfold ge. rewrite !(le_negb_lt _ m) by done.
  by destruct (lt m 7), (lt m 6), (lt m 5), (lt m 4).
Qed.

(** The specification's scenarios: magnitudes 3.2, 4.5, 6.9, 7.1 and one
    null; depths 10, 70, 299, 300 and one null. *)
Example getMagnitudeStats_scenario :
  shown_count
    (getMagnitudeStats (unrated :: take 4 scenarios))
    <$> ["minor"; "light"; "moderate"; "strong"; "major"]%string =
  [1; 1; 0; 1; 1]%nat.
Proof. vm_compute. reflexivity. Qed.

Example getDepthDistribution_scenario :
  shown_count
    (getDepthDistribution
       ({| id := "d"; geometry := {| coordinates := [Some 0%float] |};
           properties := properties unrated |} :: take 4 scenarios))
    <$> ["shallow"; "intermediate"; "deep"]%string =
  [1; 2; 1]%nat.
Proof. vm_compute. reflexivity. Qed.

Lemma scenarios_parsed : Forall parsed scenarios.
Proof.
  unfold scenarios. simpl. repeat constructor; simpl; intros ? [= <-]; reflexivity.
Qed.

(** *** The counts over the events *)

Lemma depth_of_depthKm eq : depth_of eq = depthKm eq.
Proof.
  unfold depth_of, depthKm.
  by destruct (coordinates (geometry eq)) as [|? [|? [|? ?]]].
Qed.

Lemma numbers_parsed earthquakeData :
  Forall numbers earthquakeData → Forall parsed earthquakeData.
Proof.
  intros H. eapply Forall_impl; [exact H|].
  intros eq [Hm Hd]. split; [exact Hm|].
  intros d. rewrite depth_of_depthKm. apply Hd.
Qed.

(** Counting the values that pass a test is counting the events whose value
    is there and passes it. *)
Lemma filter_omap_length {A} (value : A → option float) (p : float → bool) l :
  length (List.filter p (omap value l)) =
    length (List.filter (λ x, from_option p false (value x)) l).
Proof.
  induction l as [|x l IH]; [done|]. cbn [omap list_omap List.filter].
  destruct (value x) as [v|]; simpl; [|done].
  destruct (p v); simpl; by rewrite IH.
Qed.

Lemma omap_length_present {A} (value : A → option float) l :
  length (omap value l) =
    length (List.filter (λ x, bool_decide (is_Some (value x))) l).
Proof.
  induction l as [|x l IH]; [done|]. cbn [omap list_omap List.filter].
  destruct (value x) as [v|]; simpl; by rewrite ?IH.
Qed.

Lemma shown_magnitude_band earthquakeData name b p :
  (name, b, p) ∈ zip magnitude_intervals magnitude_bands →
  shown_count (getMagnitudeStats earthquakeData) name =
    length (List.filter p (magnitudes earthquakeData)).
Proof.
  intros Hin. unfold getMagnitudeStats. case_bool_decide as Hlen.
  - apply nil_length_inv in Hlen as ->. unfold shown_count.
    by rewrite lookup_empty.
  - unfold shown_count. simpl in Hin.
    rewrite !elem_of_cons, elem_of_nil in Hin.
    destruct Hin as [H|[H|[H|[H|[H|[]]]]]]; simplify_eq; by simplify_map_eq.
Qed.

Lemma shown_depth_band earthquakeData name b p :
  (name, b, p) ∈ zip depth_intervals depth_bands →
  shown_count (getDepthDistribution earthquakeData) name =
    length (List.filter p (depths earthquakeData)).
Proof.
  intros Hin. unfold getDepthDistribution. case_bool_decide as Hlen.
  - apply nil_length_inv in Hlen as ->. unfold shown_count.
    by rewrite lookup_empty.
  - unfold shown_count. simpl in Hin.
    rewrite !elem_of_cons, elem_of_nil in Hin.
    destruct Hin as [H|[H|[H|[]]]]; simplify_eq; by simplify_map_eq.
Qed.

(** The tests the code filters with are those of the bands. *)
Lemma magnitude_tests name b p x :
  (name, b, p) ∈ zip magnitude_intervals magnitude_bands → p x = within b x.
Proof.
  simpl. rewrite !elem_of_cons, elem_of_nil.
  intros [H|[H|[H|[H|[H|[]]]]]]; simplify_eq; unfold within; simpl;
    by rewrite ?andb_true_r.
Qed.

Lemma depth_tests name b p x :
  (name, b, p) ∈ zip depth_intervals depth_bands → p x = within b x.
Proof.
  simpl. rewrite !elem_of_cons, elem_of_nil.
  intros [H|[H|[H|[]]]]; simplify_eq; unfold within; simpl;
    by rewrite ?andb_true_r.
Qed.

Lemma magnitude_interval_test name b :
  (name, b) ∈ magnitude_intervals →
  ∃ p, (name, b, p) ∈ zip magnitude_intervals magnitude_bands.
Proof.
  unfold magnitude_intervals. rewrite !elem_of_cons, elem_of_nil.
  intros [H|[H|[H|[H|[H|[]]]]]]; simplify_eq; eexists; simpl;
    rewrite !elem_of_cons; eauto 6.
Qed.

Lemma depth_interval_test name b :
  (name, b) ∈ depth_intervals →
  ∃ p, (name, b, p) ∈ zip depth_intervals depth_bands.
Proof.
  unfold depth_intervals. rewrite !elem_of_cons, elem_of_nil.
  intros [H|[H|[H|[]]]]; simplify_eq; eexists; simpl;
    rewrite !elem_of_cons; eauto 6.
Qed.

Lemma magnitude_band_count earthquakeData name b :
  (name, b) ∈ magnitude_intervals →
  shown_count (getMagnitudeStats earthquakeData) name =
    count_within magnitude b earthquakeData.
Proof.
  intros [p Hp]%magnitude_interval_test.
  rewrite (shown_magnitude_band _ _ _ _ Hp). unfold magnitudes, count_within.
  rewrite filter_omap_length. f_equal. apply List.filter_ext. intros eq.
  unfold magnitude. destruct (mag (properties eq)); simpl; [|done].
  apply (magnitude_tests _ _ _ _ Hp).
Qed.

Lemma depth_band_count earthquakeData name b :
  (name, b) ∈ depth_intervals →
  shown_count (getDepthDistribution earthquakeData) name =
    count_within depthKm b earthquakeData.
Proof.
  intros [p Hp]%depth_interval_test.
  rewrite (shown_depth_band _ _ _ _ Hp). unfold depths, count_within.
  rewrite filter_omap_length. f_equal. apply List.filter_ext. intros eq.
  rewrite depth_of_depthKm. destruct (depthKm eq); simpl; [|done].
  apply (depth_tests _ _ _ _ Hp).
Qed.

(** C4, as the claim has it, does not hold of the code: an event one
    kilometre above sea level has a depth that is not null and lies in none
    of the bands [[0,70)], [[70,300)], [[300,∞)], and the code counts it as
    shallow.  So the shallow count is not the number of events of the band
    [[0,70)], and the counts of the claim's three bands do not add up to the
    number of events whose depth is not null, while the code's do. *)
Theorem negative_depth_counted_shallow :
  depthKm above_sea_level = Some (-1)%float
  ∧ shown_count (getDepthDistribution [above_sea_level]) "shallow" = 1%nat
  ∧ count_within depthKm (Some 0, Some 70)%float [above_sea_level] = 0%nat
  ∧ sum_list ((λ nb : string * band,
                 count_within depthKm nb.2 [above_sea_level])
                <$> depth_intervals_from_0) = 0%nat
  ∧ count_present depthKm [above_sea_level] = 1%nat
  ∧ ¬ (∀ earthquakeData name b,
         (name, b) ∈ depth_intervals_from_0 →
         shown_count (getDepthDistribution earthquakeData) name =
           count_within depthKm b earthquakeData).
Proof.
  do 5 (split; [vm_compute; reflexivity|]).
  intros H.
  specialize (H [above_sea_level] "shallow"%string (Some 0, Some 70)%float).
  assert (shown_count (getDepthDistribution [above_sea_level]) "shallow" = 1%nat)
    as Hshown by (vm_compute; reflexivity).
  assert (count_within depthKm (Some 0, Some 70)%float [above_sea_level] = 0%nat)
    as Hcount by (vm_compute; reflexivity).
  rewrite Hshown, Hcount in H. discriminate H.
  unfold depth_intervals_from_0. by left.
Qed.

(** C4, amended: the magnitude bands and the depth bands each split the
    numbers with no gap, no overlap and no double counting.  For every
    snapshot each count of [getMagnitudeStats] is the number of events whose
    magnitude is not null and lies in the band of that name (below 4, [[4,5)],
    [[5,6)], [[6,7)], from 7 on), and each count of [getDepthDistribution] is
    the number of events whose depth is not null and lies in its band (below
    70, [[70,300)], from 300 on: the shallow band has no lower end, so a
    negative depth is shallow).  A number (a parsed response has no NaN) is in
    exactly one band of each kind, a boundary value in the higher one
    (exactly 7 is major, exactly 4 is light, exactly 70 is intermediate,
    exactly 300 is deep); so the magnitude counts add up to the number of
    events whose magnitude is not null, and the depth counts to the number of
    events whose depth is not null. *)
Theorem bands_partition earthquakeData :
  (∀ name b, (name, b) ∈ magnitude_intervals →
     shown_count (getMagnitudeStats earthquakeData) name =
       count_within magnitude b earthquakeData)
  ∧ (∀ name b, (name, b) ∈ depth_intervals →
       shown_count (getDepthDistribution earthquakeData) name =
         count_within depthKm b earthquakeData)
  ∧ (Forall numbers earthquakeData →
     sum_list (shown_count (getMagnitudeStats earthquakeData)
                 <$> magnitude_intervals.*1) =
       count_present magnitude earthquakeData
     ∧ sum_list (shown_count (getDepthDistribution earthquakeData)
                   <$> depth_intervals.*1) =
         count_present depthKm earthquakeData)
  ∧ (∀ m, isNaN m = false →
          sum_list ((λ p, Nat.b2n (p m)) <$> magnitude_bands) = 1%nat)
  ∧ (∀ d, isNaN d = false →
          sum_list ((λ p, Nat.b2n (p d)) <$> depth_bands) = 1%nat)
  ∧ (major 7 = true ∧ strong 6 = true ∧ moderate 5 = true ∧ light 4 = true)
  ∧ (deep 300 = true ∧ intermediate 70 = true).
Proof.
  split; [|split; [|split; [|split; [|split; [|split]]]]].
  - intros name b. apply magnitude_band_count.
  - intros name b. apply depth_band_count.
  - intros Hnumbers%numbers_parsed. split.
    + change (magnitude_intervals.*1)
        with ["minor"; "light"; "moderate"; "strong"; "major"]%string.
      rewrite getMagnitudeStats_shown.
      rewrite magnitude_counts_sum by (by apply parsed_magnitudes).
      apply omap_length_present.
    + change (depth_intervals.*1)
        with ["shallow"; "intermediate"; "deep"]%string.
      rewrite getDepthDistribution_shown.
      rewrite depth_counts_sum by (by apply parsed_depths).
      unfold depths, count_present. rewrite omap_length_present.
      f_equal. apply List.filter_ext. intros eq. by rewrite depth_of_depthKm.
  - apply magnitude_band_unique.
  - apply depth_band_unique.
  - repeat split; reflexivity.
  - repeat split; reflexivity.
Qed.

Lemma scenarios_numbers : Forall numbers (above_sea_level :: scenarios).
Proof.
  unfold scenarios. simpl.
  repeat constructor; simpl; intros ? [= <-]; reflexivity.
Qed.

Lemma bands_partition_sample :
  Forall numbers (above_sea_level :: scenarios)
  ∧ shown_count (getDepthDistribution (above_sea_level :: scenarios))
      "shallow" =
    count_within depthKm (None, Some 70%float) (above_sea_level :: scenarios)
  ∧ sum_list (shown_count (getMagnitudeStats (above_sea_level :: scenarios))
                <$> magnitude_intervals.*1) =
    count_present magnitude (above_sea_level :: scenarios)
  ∧ sum_list (shown_count (getDepthDistribution (above_sea_level :: scenarios))
                <$> depth_intervals.*1) =
    count_present depthKm (above_sea_level :: scenarios).
Proof.
  split; [exact scenarios_numbers|].
  pose proof (bands_partition (above_sea_level :: scenarios))
    as (_ & Hdepth & Hsums & _).
  split; [|exact (Hsums scenarios_numbers)].
  apply Hdepth. unfold depth_intervals. by left.
Defined.

End Bands.

(** ** The magnitude histogram *)

Module Histogram.

Import JSNum NumberOrder Statistics Counting Spec.

Lemma edge_increasing k : (k < 20)%nat → lt (edge k) (edge (S k)) = true.
Proof.
  intros Hk. do 20 (destruct k as [|k]; [reflexivity|]). lia.
Qed.

Lemma edge_isNaN k : (k ≤ 20)%nat → isNaN (edge k) = false.
Proof.
  intros Hk. do 21 (destruct k as [|k]; [reflexivity|]). lia.
Qed.

Lemma edge_from_zero k : (k ≤ 20)%nat → le (edge 0) (edge k) = true.
Proof.
  intros Hk. do 21 (destruct k as [|k]; [reflexivity|]). lia.
Qed.

Lemma d3_bin_fmap values :
  d3_bin values =
    (λ i, {| x0 := edge i; x1 := edge (S i);
             items := List.filter (in_bin i) values |}) <$> seq 0 20.
Proof. reflexivity. Qed.

(** The first [n] bins together hold what lies in [[0, edge n)]. *)
Lemma first_bins v n :
  isNaN v = false → (n ≤ 19)%nat →
  sum_list ((λ i, Nat.b2n (in_bin i v)) <$> seq 0 n) =
    Nat.b2n (le (edge 0) v && lt v (edge n)).
Proof.
  intros Hv. induction n as [|n IH]; intros Hn.
  - simpl. rewrite (le_negb_lt (edge 0) v) by done. by destruct (lt v (edge 0)).
  - rewrite seq_S, fmap_app, sum_list_with_app, IH by lia. simpl.
    unfold in_bin. replace (n =? 19)%nat with false
      by (symmetry; apply Nat.eqb_neq; lia).
    rewrite (le_negb_lt (edge n) v) by (done || (apply edge_isNaN; lia)).
    pose proof (edge_increasing n ltac:(lia)) as Hstep.
    destruct (lt v (edge n)) eqn:Hlt.
    + rewrite (lt_trans v (edge n) (edge (S n))) by done. simpl.
      destruct (le (edge 0) v); simpl; lia.
    + simpl. assert (le (edge 0) v = true) as ->.
      { apply (le_trans _ (edge n)); [apply edge_from_zero; lia|].
        rewrite le_negb_lt by (done || (apply edge_isNaN; lia)).
        by rewrite Hlt. }
      simpl. destruct (lt v (edge (S n))); simpl; lia.
Qed.

(** A number is in one bin when it is in the domain, and in none
    otherwise. *)
Lemma one_bin v :
  sum_list ((λ p, Nat.b2n (p v)) <$> (in_bin <$> seq 0 20)) =
    Nat.b2n (in_domain v).
Proof.
  rewrite <- list_fmap_compose.
  change (((λ p, Nat.b2n (p v)) ∘ in_bin) <$> seq 0 20)
    with ((λ i, Nat.b2n (in_bin i v)) <$> seq 0 20).
  destruct (isNaN v) eqn:Hv.
  - assert (∀ l, sum_list ((λ i, Nat.b2n (in_bin i v)) <$> l) = 0%nat) as H.
    { induction l as [|i l IH]; [done|]. rewrite fmap_cons.
      cbn [sum_list sum_list_with]. rewrite IH. unfold in_bin.
      rewrite (le_NaN (edge i) v) by auto. done. }
    rewrite H. unfold in_domain. by rewrite (le_NaN 0 v) by auto.
  - change (seq 0 20) with (seq 0 19 ++ [19%nat]).
    rewrite fmap_app, sum_list_with_app.
    rewrite first_bins by (done || lia).
    unfold in_domain. change 0%float with (edge 0). change 10%float with (edge 20).
    simpl. unfold in_bin. simpl.
    rewrite (le_negb_lt (edge 19) v) by done.
    destruct (lt v (edge 19)) eqn:Hlt.
    + rewrite (lt_le v (edge 20)) by (by apply (lt_trans v (edge 19))).
      simpl. destruct (le (edge 0) v); simpl; lia.
    + simpl. assert (le (edge 0) v = true) as ->.
      { apply (le_trans _ (edge 19)); [reflexivity|].
        rewrite le_negb_lt by done. by rewrite Hlt. }
      simpl. destruct (le v (edge 20)); simpl; lia.
Qed.

Lemma d3_bin_lookup values i b :
  d3_bin values !! i = Some b →
  (i < 20)%nat
  ∧ b = {| x0 := edge i; x1 := edge (S i);
           items := List.filter (in_bin i) values |}.
Proof.
  rewrite d3_bin_fmap, list_lookup_fmap.
  destruct (seq 0 20 !! i) as [j|] eqn:E; simpl; [|done].
  apply lookup_seq in E as [-> Hi]. by intros [= <-].
Qed.

Lemma edge_width i : (i < 20)%nat → (edge (S i) - edge i = 0.5)%float.
Proof.
  intros Hi. do 20 (destruct i as [|i]; [reflexivity|]). lia.
Qed.

(** The effect computes bins exactly when the chart's element is there, the
    data is loaded and the snapshot is not empty. *)
Lemma bins_guard chartRef_current loading earthquakeData :
  bins chartRef_current loading earthquakeData =
    if chartRef_current && negb loading
       && negb (bool_decide (earthquakeData = []))
    then Some (d3_bin (magnitudes earthquakeData))
    else None.
Proof.
  unfold bins. destruct chartRef_current, loading; simpl; try done.
  destruct earthquakeData; reflexivity.
Qed.

(** The magnitudes of a test among those that are not null are the
    magnitudes of the events that pass it. *)
Lemma filter_magnitudes p earthquakeData :
  List.filter p (magnitudes earthquakeData) =
    magnitudes_where p earthquakeData.
Proof.
  unfold magnitudes, magnitudes_where, magnitude.
  induction earthquakeData as [|eq l IH]; [done|].
  cbn [omap list_omap List.filter].
  destruct (mag (properties eq)) as [m|]; simpl; [|done].
  destruct (p m); simpl; by rewrite IH.
Qed.

Lemma magnitudes_where_length p earthquakeData :
  length (magnitudes_where p earthquakeData) =
    length (List.filter (λ eq, from_option p false (magnitude eq))
              earthquakeData).
Proof.
  rewrite <- filter_magnitudes. apply Bands.filter_omap_length.
Qed.

(** C5, as the claim has it, does not hold of the code: on the empty
    snapshot the effect returns before it computes anything, so there are no
    bins, where the claim has 20 of them for every snapshot. *)
Theorem no_bins_for_empty_snapshot :
  bins true false [] = None
  ∧ ¬ (∃ bs, bins true false [] = Some bs ∧ length bs = 20%nat).
Proof.
  split; [reflexivity|]. intros (bs & Hbs & _). discriminate Hbs.
Qed.

(** C5, amended: on the empty snapshot, while loading, and without the
    chart's element, no bins are computed.  For every snapshot that is not
    empty, once it is loaded and the chart's element is there, the histogram
    has 20 bins of equal width 0.5 over the fixed domain [[0, 10]]; a bin
    holds the magnitudes of the events whose magnitude is not null and lies
    in the half-open interval [[x0, x1)], except the last bin, which is
    closed on both ends and so holds a magnitude of exactly 10; the bin
    counts add up to the number of events whose magnitude is not null and
    lies in [[0, 10]]; the magnitude of an event outside [[0, 10]] is in no
    bin. *)
Theorem histogram_bins chartRef_current loading earthquakeData :
  (chartRef_current = false ∨ loading = true ∨ earthquakeData = [] →
   bins chartRef_current loading earthquakeData = None)
  ∧ (chartRef_current = true → loading = false → earthquakeData ≠ [] →
     ∃ bs,
       bins chartRef_current loading earthquakeData = Some bs
       ∧ length bs = 20%nat
       ∧ (edge 0 = 0 ∧ edge 20 = 10)%float
       ∧ (∀ i b, bs !! i = Some b →
            x0 b = edge i ∧ x1 b = edge (S i) ∧ (x1 b - x0 b = 0.5)%float
            ∧ items b =
                magnitudes_where
                  (λ m, le (x0 b) m
                        && (if (i =? 19)%nat then le m (x1 b)
                            else lt m (x1 b)))
                  earthquakeData)
       ∧ sum_list (length ∘ items <$> bs) =
           length (List.filter
                     (λ eq, from_option in_domain false (magnitude eq))
                     earthquakeData)
       ∧ (∀ eq m b, eq ∈ earthquakeData → magnitude eq = Some m →
                    in_domain m = false → b ∈ bs → m ∉ items b)).
Proof.
  split.
  { rewrite bins_guard. intros [-> | [-> | ->]].
    - done.
    - by destruct chartRef_current.
    - by destruct chartRef_current, loading. }
  intros -> -> Hne. exists (d3_bin (magnitudes earthquakeData)).
  split.
  { rewrite bins_guard. simpl. by rewrite bool_decide_false. }
  split; [reflexivity|]. split; [by split|]. split; [|split].
  - intros i b Hb. apply d3_bin_lookup in Hb as [Hi ->]. simpl.
    split; [done|]. split; [done|]. split; [by apply edge_width|].
    rewrite filter_magnitudes. unfold in_bin.
    destruct (i =? 19)%nat eqn:E; [|done].
    by apply Nat.eqb_eq in E as ->.
  - rewrite <- magnitudes_where_length, <- filter_magnitudes.
    rewrite d3_bin_fmap, <- list_fmap_compose.
    rewrite <- (sum_filter_lengths (in_bin <$> seq 0 20) in_domain).
    + by rewrite <- list_fmap_compose.
    + apply Forall_forall. intros v _. apply one_bin.
  - intros eq m b _ _ Hout Hb Hm.
    apply list_elem_of_lookup in Hb as [i Hb].
    apply d3_bin_lookup in Hb as [Hi ->]. simpl in Hm.
    apply elem_of_filter_bool in Hm as [_ Hm].
    pose proof (one_bin m) as Hsum.
    assert (Nat.b2n (in_bin i m) ≤ Nat.b2n (in_domain m))%nat as Hle.
    { rewrite <- Hsum.
      apply (sum_list_with_in _ Datatypes.id).
      apply list_elem_of_fmap. exists (in_bin i). split; [done|].
      apply list_elem_of_fmap. exists i. split; [done|].
      apply elem_of_seq. lia. }
    rewrite Hm, Hout in Hle. simpl in Hle. lia.
Qed.

Lemma histogram_bins_sample :
  bins true true (Sample.unrated :: Sample.scenarios) = None
  ∧ ∃ bs, bins true false (Sample.unrated :: Sample.scenarios) = Some bs
          ∧ length bs = 20%nat
          ∧ from_option
              (λ b, x0 b = 3%float ∧ x1 b = 3.5%float ∧ items b = [3.2%float])
              False (bs !! 6%nat).
Proof.
  split.
  { apply (proj1 (histogram_bins true true
                    (Sample.unrated :: Sample.scenarios))).
    right. by left. }
  destruct (proj2 (histogram_bins true false
                     (Sample.unrated :: Sample.scenarios))
              eq_refl eq_refl ltac:(discriminate))
    as (bs & Hbs & Hlen & _ & Hbin & _).
  exists bs. split; [exact Hbs|]. split; [exact Hlen|].
  destruct (bs !! 6%nat) as [b|] eqn:E; simpl.
  - destruct (Hbin 6%nat b E) as (H0 & H1 & _ & Hitems).
    rewrite Hitems, H0, H1. repeat split; reflexivity.
  - apply lookup_ge_None in E. lia.
Defined.

End Histogram.

(** ** Sorting *)

Module ArraySort.

Import Spec.

Section by_key.
Context {A : Type} (compareFn : A → A → Z) (key : A → Z).

(** The comparator orders by a key: [compareFn a b] is at most 0 exactly
    when [a]'s key is at most [b]'s. *)
Hypothesis compareFn_key : ∀ a b, compareFn a b ≤ 0 ↔ key a ≤ key b.

Lemma insert_Permutation x l : Array.insert compareFn x l ≡ₚ x :: l.
Proof.
  induction l as [|y l IH]; simpl; [done|].
  destruct (compareFn x y <=? 0); [done|].
  by rewrite IH, Permutation_swap.
Qed.

Lemma sort_Permutation l : Array.sort compareFn l ≡ₚ l.
Proof.
  induction l as [|x l IH]; simpl; [done|].
  by rewrite insert_Permutation, IH.
Qed.

Lemma insert_ordered x l :
  ordered key l → ordered key (Array.insert compareFn x l).
Proof.
  unfold ordered. induction 1 as [|y l Hl IH Hy]; simpl.
  - repeat constructor.
  - destruct (compareFn x y <=? 0) eqn:E.
    + apply Z.leb_le, compareFn_key in E.
      constructor; [by constructor|]. constructor; [done|].
      eapply Forall_impl; [exact Hy|]. simpl. lia.
    + apply Z.leb_gt in E.
      assert (key y ≤ key x) by (destruct (compareFn_key x y); lia).
      constructor; [done|].
      rewrite insert_Permutation. by constructor.
Qed.

Lemma sort_ordered l : ordered key (Array.sort compareFn l).
Proof.
  induction l as [|x l IH]; simpl; [constructor|]. by apply insert_ordered.
Qed.

(** The sort is stable: elements of one key keep their order. *)
Lemma insert_stable k x l :
  List.filter (λ a, bool_decide (key a = k)) (Array.insert compareFn x l) =
    List.filter (λ a, bool_decide (key a = k)) (x :: l).
Proof.
  induction l as [|y l IH]; [done|]. cbn [Array.insert].
  destruct (compareFn x y <=? 0) eqn:E; [done|].
  apply Z.leb_gt in E.
  assert (key x ≠ key y) by (destruct (compareFn_key x y); lia).
  cbn [List.filter] in *. rewrite IH.
  repeat case_bool_decide; congruence.
Qed.

Lemma sort_stable k l :
  List.filter (λ a, bool_decide (key a = k)) (Array.sort compareFn l) =
    List.filter (λ a, bool_decide (key a = k)) l.
Proof.
  induction l as [|x l IH]; [done|]. cbn [Array.sort foldr].
  rewrite insert_stable. cbn [List.filter]. fold (Array.sort compareFn l).
  by rewrite IH.
Qed.

(** Sorting an array that is in order leaves it as it is. *)
Lemma sort_ordered_id l : ordered key l → Array.sort compareFn l = l.
Proof.
  unfold ordered. induction 1 as [|x l Hl IH Hx]; simpl; [done|].
  rewrite IH. destruct l as [|y l]; simpl; [done|].
  apply Forall_inv in Hx. apply compareFn_key, Z.leb_le in Hx. by rewrite Hx.
Qed.

Lemma sort_idempotent l :
  Array.sort compareFn (Array.sort compareFn l) = Array.sort compareFn l.
Proof. apply sort_ordered_id, sort_ordered. Qed.

Lemma NoDup_key_inj l x y :
  NoDup (key <$> l) → x ∈ l → y ∈ l → key x = key y → x = y.
Proof.
  induction l as [|z l IH]; simpl; [by rewrite elem_of_nil|].
  rewrite NoDup_cons, !elem_of_cons. intros [Hz Hl] [->|Hx] [->|Hy] Hk; try done.
  - destruct Hz. rewrite Hk. by apply list_elem_of_fmap_2.
  - destruct Hz. rewrite <- Hk. by apply list_elem_of_fmap_2.
  - by apply IH.
Qed.

Lemma ordered_strictly l :
  ordered key l → NoDup (key <$> l) → strictly_ordered key l.
Proof.
  unfold ordered, strictly_ordered.
  induction 1 as [|x l Hl IH Hx]; simpl; [constructor|].
  rewrite NoDup_cons. intros [Hnotin Hnodup]. constructor; [by apply IH|].
  apply Forall_forall. intros y Hy.
  rewrite Forall_forall in Hx. specialize (Hx y Hy).
  assert (key x ≠ key y); [|lia].
  intros Heq. apply Hnotin. rewrite Heq. by apply list_elem_of_fmap_2.
Qed.

Lemma sort_strictly_ordered l :
  NoDup (key <$> l) → strictly_ordered key (Array.sort compareFn l).
Proof.
  intros Hl. apply ordered_strictly; [apply sort_ordered|].
  by rewrite sort_Permutation.
Qed.

(** Elements with distinct keys sort to the same array from any order. *)
Lemma sort_any_order l1 l2 :
  NoDup (key <$> l1) → l1 ≡ₚ l2 →
  Array.sort compareFn l1 = Array.sort compareFn l2.
Proof.
  intros Hnodup Hperm.
  apply (StronglySorted_unique_strong (λ a b, key a ≤ key b));
    [|apply sort_ordered..|by rewrite !sort_Permutation].
  intros x1 x2 Hx1 Hx2 ??.
  rewrite sort_Permutation in Hx1. rewrite sort_Permutation, <- Hperm in Hx2.
  apply (NoDup_key_inj l1); [done..|lia].
Qed.

End by_key.

End ArraySort.

(** ** The dashboard tab *)

Module Summary.

Import JS Dashboard Sample Spec.

(** *** Summary statistics *)

Lemma getStats_empty now :
  getStats now [] =
    {| total := 0; largest := Plain 0; averageMagnitude := Plain 0;
       last24Hours := 0 |}.
Proof. reflexivity. Qed.

(** On a snapshot that is not empty the total is its size, whatever the
    magnitudes are, and the largest and the average are taken over the
    magnitudes that are not null. *)
Lemma getStats_nonempty now earthquakeData :
  earthquakeData ≠ [] →
  getStats now earthquakeData =
    {| total := length earthquakeData;
       largest := Text (ToFixed 1 (JSNum.Math_max (magnitudes earthquakeData)));
       averageMagnitude :=
         Text (ToFixed 1
                 (foldl PrimFloat.add 0 (magnitudes earthquakeData)
                  / JSNum.of_nat (length (magnitudes earthquakeData)))%float);
       last24Hours :=
         length (List.filter
                   (λ eq, now - time (properties eq) <? 86400000)
                   earthquakeData) |}.
Proof.
  intros Hne. unfold getStats. case_bool_decide as Hlen; [|done].
  by apply nil_length_inv in Hlen.
Qed.

Lemma getStats_total now earthquakeData :
  total (getStats now earthquakeData) = length earthquakeData.
Proof.
  destruct earthquakeData as [|eq l]; [done|].
  by rewrite getStats_nonempty.
Qed.

Lemma getStats_last24Hours now earthquakeData :
  last24Hours (getStats now earthquakeData) =
    length (List.filter (λ eq, now - time (properties eq) <? 86400000)
              earthquakeData).
Proof.
  destruct earthquakeData as [|eq l]; [done|].
  by rewrite getStats_nonempty.
Qed.

(** C3 does not hold of the code: on a snapshot that has events but no
    magnitude that is not null, the largest magnitude is [-Infinity] and the
    average is [NaN] (shown as the texts of [toFixed(1)]), where the claim
    has 0 for both.  The total and the count of the last 24 hours are as
    claimed. *)
Theorem getStats_without_magnitudes :
  magnitudes [unrated] = []
  ∧ getStats 1000 [unrated] =
      {| total := 1;
         largest := Text (ToFixed 1 neg_infinity);
         averageMagnitude := Text (ToFixed 1 nan);
         last24Hours := 1 |}.
Proof. split; reflexivity. Qed.

(** *** Recent events *)

Lemma compare_newer_first (a b : Feature) :
  time (properties b) - time (properties a) ≤ 0
  ↔ - time (properties a) ≤ - time (properties b).
Proof. lia. Qed.

Lemma newer_first_ordered l :
  newer_first l ↔ ordered (λ eq, - time (properties eq)) l.
Proof.
  unfold newer_first, ordered.
  split; induction 1 as [|x l Hl IH Hx]; constructor; try done;
    (eapply Forall_impl; [exact Hx|]); simpl; lia.
Qed.

(** The list of recent events is the first ten of the events from the
    newest to the oldest, and the array of the snapshot holds the events in
    that order afterwards. *)
Lemma recentEarthquakes_sorted earthquakeData :
  let '(recent, after) := recentEarthquakes earthquakeData in
  after ≡ₚ earthquakeData ∧ newer_first after ∧ recent = take 10 after.
Proof.
  unfold recentEarthquakes. split; [|split; [|done]].
  - apply ArraySort.sort_Permutation.
  - apply newer_first_ordered.
    apply (ArraySort.sort_ordered _ _ compare_newer_first).
Qed.

(** A second evaluation gives the same list and changes nothing more. *)
Lemma recentEarthquakes_again earthquakeData :
  let '(recent, after) := recentEarthquakes earthquakeData in
  recentEarthquakes after = (recent, after).
Proof.
  unfold recentEarthquakes.
  by rewrite (ArraySort.sort_idempotent _ _ compare_newer_first).
Qed.

(** C2 does not hold of the code: evaluating [recentEarthquakes] sorts the
    array of the snapshot in place.  On a snapshot of two events with the
    older one first, the array holds them in the other order afterwards, and
    so does the state of [App] after the tab is rendered. *)
Theorem recentEarthquakes_reorders_snapshot :
  (recentEarthquakes oldest_first).2 = [quake; tremor]
  ∧ (recentEarthquakes oldest_first).2 ≠ oldest_first
  ∧ App.earthquakeData
      (render 1000 (App.setEarthquakeData oldest_first App.initial)).2
    = [quake; tremor].
Proof.
  split; [reflexivity|]. split; [|reflexivity].
  intros H. apply (f_equal (fmap id)) in H. discriminate H.
Qed.

End Summary.

(** ** The timeline tab *)

Module Activity.

Import Timeline Sample Spec.

Lemma compare_hours (a b : bucket) : hours a - hours b ≤ 0 ↔ hours a ≤ hours b.
Proof. lia. Qed.

Lemma events_at_snoc now l eq h :
  events_at now (l ++ [eq]) h =
    (events_at now l h + if bool_decide (hoursAgo now eq = h) then 1 else 0)%nat.
Proof.
  unfold events_at. rewrite List.filter_app, length_app. simpl.
  by destruct (bool_decide _).
Qed.

(** A key of [hourBuckets] is an hour that has events, and its value is
    their number. *)
Lemma hourBuckets_lookup now earthquakeData h :
  hourBuckets now earthquakeData !! h =
    if decide (events_at now earthquakeData h = 0%nat) then None
    else Some (events_at now earthquakeData h).
Proof.
  unfold hourBuckets.
  induction earthquakeData as [|eq l IH] using rev_ind; [done|].
  rewrite foldl_app, events_at_snoc. simpl.
  case_bool_decide as Hh.
  - rewrite Hh, lookup_insert_eq, IH.
    destruct (decide (events_at now l h = 0%nat)) as [->|]; simpl.
    + done.
    + destruct (decide _); [lia|done].
  - rewrite lookup_insert_ne, IH by done. by rewrite Nat.add_0_r.
Qed.

Lemma getTimeDistribution_nonempty now earthquakeData :
  earthquakeData ≠ [] →
  getTimeDistribution now earthquakeData =
    take 24 (Array.sort (λ a b, hours a - hours b)
               (entry <$> map_to_list (hourBuckets now earthquakeData))).
Proof.
  intros Hne. unfold getTimeDistribution. case_bool_decide as Hlen.
  - by apply nil_length_inv in Hlen.
  - unfold Array.slice0. do 2 f_equal. apply list_fmap_ext. by intros ? [].
Qed.

(** The entries of [hourBuckets] give the same array in whatever order
    [Object.entries] lists them. *)
Lemma sort_entries_any_order now earthquakeData (entries : list (Z * nat)) :
  entries ≡ₚ map_to_list (hourBuckets now earthquakeData) →
  Array.sort (λ a b, hours a - hours b) (entry <$> entries) =
    Array.sort (λ a b, hours a - hours b)
      (entry <$> map_to_list (hourBuckets now earthquakeData)).
Proof.
  intros Hperm. apply (ArraySort.sort_any_order _ hours compare_hours).
  - rewrite <- list_fmap_compose, Hperm.
    apply (NoDup_fst_map_to_list (hourBuckets now earthquakeData)).
  - by rewrite Hperm.
Qed.

(** Three events 30, 30 and 2 hours old: the entries are not limited to the
    last 24 hours. *)
Example getTimeDistribution_30_hours :
  getTimeDistribution (30 * 3600000 + 700)
    [unrated; quake; {| id := "late"; geometry := geometry quake;
                        properties := {| mag := None; place := "";
                                         time := 28 * 3600000; felt := None |} |}] =
    [ {| hours := 2; count := 1 |}; {| hours := 30; count := 2 |} ].
Proof. vm_compute. reflexivity. Qed.

(** [hoursAgo] is the number of whole hours that have passed. *)
Lemma hoursAgo_whole_hours now eq h :
  hoursAgo now eq = h ↔ whole_hours now eq h.
Proof.
  unfold hoursAgo, whole_hours, timeMs.
  change (1000 * 60 * 60) with 3600000.
  pose proof (Z.div_mod (now - time (properties eq)) 3600000 ltac:(lia)).
  pose proof (Z.mod_pos_bound (now - time (properties eq)) 3600000 ltac:(lia)).
  split; [intros <-; lia|]. intros [Hlo Hhi]. nia.
Qed.

Lemma events_at_aged now earthquakeData h :
  events_at now earthquakeData h = events_aged now earthquakeData h.
Proof.
  unfold events_at, events_aged. f_equal. apply List.filter_ext. intros eq.
  apply bool_decide_ext, hoursAgo_whole_hours.
Qed.

(** What [slice(0, 24)] leaves out of an array in strict order comes after
    everything it keeps. *)
Lemma take_strictly_ordered {A} (key : A → Z) n (l : list A) kept left :
  strictly_ordered key l →
  kept ∈ take n l → left ∈ l → left ∉ take n l → key kept < key left.
Proof.
  unfold strictly_ordered. intros Hsorted Hkept Hleft Hout.
  rewrite <- (take_drop n l) in Hsorted, Hleft.
  apply StronglySorted_app in Hsorted as (Hall & _ & _).
  apply elem_of_app in Hleft as [Hleft|Hleft]; [done|].
  by apply Hall.
Qed.

(** C7, as the claim has it, does not hold of the code: what the cut keeps
    is the most recent hours.  Of thirty events that are 0, 1, ..., 29 whole
    hours old the result has the hours 0 to 23, one event each: it is the
    activity of the most recent 24 hours, the same as for the events of
    those 24 hours alone, and the hours left out, 24 to 29, are the ones
    longest ago. *)
Theorem first_24_are_most_recent :
  (λ eq, half_past - timeMs eq) <$> every_hour =
    (λ k, k * 3600000 + 1800000) <$> reverse (seqZ 0 30)
  ∧ getTimeDistribution half_past every_hour =
      (λ h, {| hours := h; count := 1 |}) <$> seqZ 0 24
  ∧ getTimeDistribution half_past every_hour =
      getTimeDistribution half_past
        (List.filter (λ eq, half_past - timeMs eq <? 24 * 3600000) every_hour).
Proof. repeat split; vm_compute; reflexivity. Qed.

(** C7, amended: [getTimeDistribution] gives one entry for each whole
    number of hours [hoursAgo = floor((now - time) / 1h)] that some event of
    the snapshot has, with the number of those events, in ascending order of
    [hoursAgo], cut to the first 24 entries of that order; these are the
    most recent hours that have events: every hour the cut leaves out is
    longer ago than every hour it keeps. *)
Theorem getTimeDistribution_hours now earthquakeData :
  ∃ all : list bucket,
    getTimeDistribution now earthquakeData = take 24 all
    ∧ StronglySorted (λ a b, hours a < hours b) all
    ∧ (∀ h c, {| hours := h; count := c |} ∈ all
              ↔ (c = events_aged now earthquakeData h ∧ 0 < c)%nat)
    ∧ (∀ kept left,
         kept ∈ getTimeDistribution now earthquakeData →
         left ∈ all → left ∉ getTimeDistribution now earthquakeData →
         hours kept < hours left).
Proof.
  assert (∃ all : list bucket,
            getTimeDistribution now earthquakeData = take 24 all
            ∧ StronglySorted (λ a b, hours a < hours b) all
            ∧ (∀ h c, {| hours := h; count := c |} ∈ all
                      ↔ (c = events_aged now earthquakeData h ∧ 0 < c)%nat))
    as (all & Htake & Hsorted & Hall).
  { destruct (decide (earthquakeData = [])) as [->|Hne].
    - exists []. split; [done|]. split; [constructor|].
      intros h c. rewrite elem_of_nil. unfold events_aged. simpl. lia.
    - exists (Array.sort (λ a b, hours a - hours b)
                (entry <$> map_to_list (hourBuckets now earthquakeData))).
      split; [by apply getTimeDistribution_nonempty|]. split.
      + apply (ArraySort.sort_strictly_ordered _ hours compare_hours).
        rewrite <- list_fmap_compose.
        apply (NoDup_fst_map_to_list (hourBuckets now earthquakeData)).
      + intros h c. rewrite <- events_at_aged.
        rewrite ArraySort.sort_Permutation, list_elem_of_fmap. split.
        * intros ([h' c'] & [= -> ->] & Hin).
          apply elem_of_map_to_list in Hin. rewrite hourBuckets_lookup in Hin.
          destruct (decide _); [done|]. simplify_eq. lia.
        * intros [-> Hpos]. exists (h, events_at now earthquakeData h).
          split; [done|]. apply elem_of_map_to_list.
          rewrite hourBuckets_lookup. destruct (decide _); [lia|done]. }
  exists all. split; [done|]. split; [done|]. split; [done|].
  rewrite Htake. intros kept left.
  by apply (take_strictly_ordered hours).
Qed.

End Activity.

(** ** More on the query builder *)

Module QueryShape.

Import JS App Spec.

Lemma optional_names filterOptions p :
  (optional filterOptions p).*1 `sublist_of` [p.2].
Proof.
  unfold optional. destruct (ToBoolean _); simpl; [done|apply sublist_nil_l].
Qed.

Lemma search_names now filterOptions :
  (search (buildUSGSQuery now filterOptions)).*1 `sublist_of` parameter_names.
Proof.
  rewrite QueryBuilder.buildUSGSQuery_search, !fmap_app.
  unfold optional_parameters. simpl concat. rewrite !fmap_app.
  change parameter_names with
    ([ "format"; "limit"; "starttime"; "endtime" ]%string
     ++ ([ "minmagnitude"%string ] ++ [ "maxmagnitude"%string ]
           ++ [ "mindepth"%string ] ++ [ "maxdepth"%string ]
           ++ [ "latitude"%string ] ++ [ "longitude"%string ]
           ++ [ "maxradiuskm"%string ] ++ [])
     ++ [ "orderby"%string ]).
  apply sublist_app; [done|]. apply sublist_app; [|done].
  repeat (apply sublist_app; [apply (optional_names filterOptions (_, _))|]).
  done.
Qed.

(** X1: whatever the filter object holds, no parameter name occurs twice in
    the query, the names come in the builder's fixed order, [format],
    [limit], [starttime], [endtime] and [orderby] are always there, the
    query starts with [format=geojson] and ends with [orderby=time]. *)
Theorem buildUSGSQuery_parameter_names now filterOptions :
  let query := search (buildUSGSQuery now filterOptions) in
  NoDup query.*1
  ∧ query.*1 `sublist_of` parameter_names
  ∧ Forall (λ name, name ∈ query.*1)
      [ "format"; "limit"; "starttime"; "endtime"; "orderby" ]%string
  ∧ head query = Some ("format"%string, ToString (Str "geojson"))
  ∧ last query = Some ("orderby"%string, ToString (Str "time")).
Proof.
  cbv zeta. split; [|split; [apply search_names|]].
  - eapply sublist_NoDup; [|apply search_names].
    unfold parameter_names. apply (bool_decide_unpack _). vm_compute. done.
  - rewrite QueryBuilder.buildUSGSQuery_search. split; [|split].
    + rewrite !fmap_app. repeat constructor;
        rewrite !elem_of_app; simpl; rewrite !elem_of_cons; tauto.
    + done.
    + by rewrite app_assoc, last_snoc.
Qed.

(** X2: for every value of [timeRange] the window asked for ends at [now]
    and starts between 30 days and 1 hour before it: it is never empty and
    never reversed. *)
Theorem buildUSGSQuery_window_bounds now filterOptions :
  ∃ t,
    getAll "starttime" (search (buildUSGSQuery now filterOptions)) =
      [ToISOString t]
    ∧ getAll "endtime" (search (buildUSGSQuery now filterOptions)) =
      [ToISOString now]
    ∧ now - 2592000000 ≤ t ≤ now - 3600000.
Proof.
  destruct (QueryBuilder.getAll_fixed_parameters now filterOptions)
    as (_ & -> & ->).
  eexists. split; [done|]. split; [done|].
  unfold startTime. repeat destruct (strict_equals _ _); lia.
Qed.

(** X3: the query depends on nine fields of the filter object and on
    nothing else in it: two filter objects that agree on those fields give
    the same query. *)
Theorem buildUSGSQuery_reads now filterOptions filterOptions' :
  (∀ field, field ∈ read_fields →
            get filterOptions field = get filterOptions' field) →
  buildUSGSQuery now filterOptions = buildUSGSQuery now filterOptions'.
Proof.
  intros H.
  assert (Forall (λ field, get filterOptions field = get filterOptions' field)
            read_fields) as Hall by (by apply Forall_forall).
  unfold read_fields in Hall.
  repeat (apply Forall_cons in Hall as [? Hall]).
  unfold buildUSGSQuery.
  repeat match goal with
         | E : get filterOptions _ = _ |- _ => rewrite E; clear E
         end.
  reflexivity.
Qed.

Lemma buildUSGSQuery_reads_activeTab :
  buildUSGSQuery 1000000000000 (<["activeTab" := Str "map"]> scenario) =
    buildUSGSQuery 1000000000000 scenario.
Proof.
  apply (buildUSGSQuery_reads 1000000000000
           (<["activeTab" := Str "map"]> scenario) scenario).
  intros field Hfield. unfold get. rewrite lookup_insert_ne; [done|].
  intros <-. unfold read_fields in Hfield.
  repeat (apply elem_of_cons in Hfield as [Hfield|Hfield]; [discriminate|]).
  by apply elem_of_nil in Hfield.
Defined.

End QueryShape.

(** ** More on the refresh cycle *)

Module Cycle.

Import JS App Sample Spec.

Lemma run_snoc evs ev w :
  run (evs ++ [ev]) w = w' ← run evs w; step ev w'.
Proof.
  revert w. induction evs as [|ev' evs IH]; intros w; simpl.
  - by destruct (step ev w).
  - destruct (step ev' w); simpl; [apply IH|done].
Qed.

Lemma step_filters ev w w' :
  step ev w = Some w' → filters w' = change (filters w) ev.
Proof.
  intros Hstep. destruct ev as [now|key v now|now|i r]; simpl in Hstep.
  - destruct (interval w); by simplify_eq.
  - destruct (interval w); by simplify_eq.
  - destruct (interval w); by simplify_eq.
  - destruct (inflight w !! i) as [rq|]; simpl in Hstep; simplify_eq.
    by destruct (Refresh.resume_frame r (receive i rq r w)) as (-> & _).
Qed.

Lemma step_loading ev w w' :
  step ev w = Some w' → loading w' = is_trigger ev.
Proof.
  intros Hstep. destruct ev as [now|key v now|now|i r]; simpl in Hstep.
  - destruct (interval w); by simplify_eq.
  - destruct (interval w); by simplify_eq.
  - destruct (interval w); by simplify_eq.
  - destruct (inflight w !! i) as [rq|]; simpl in Hstep; simplify_eq.
    by destruct (Refresh.resume_frame r (receive i rq r w))
      as (_ & _ & _ & _ & _ & ->).
Qed.

Lemma step_requests ev w w' :
  step ev w = Some w' →
  length (issued w') = (length (issued w) + Nat.b2n (is_trigger ev))%nat
  ∧ length (settled w') =
      (length (settled w) + Nat.b2n (negb (is_trigger ev)))%nat
  ∧ (issued w ≡ₚ (settled w).*1 ++ inflight w →
     issued w' ≡ₚ (settled w').*1 ++ inflight w').
Proof.
  intros Hstep. destruct ev as [now|key v now|now|i r]; simpl in Hstep.
  - destruct (interval w); simplify_eq. simpl. rewrite length_app. simpl.
    split; [done|]. split; [lia|]. intros ->. by rewrite app_assoc.
  - destruct (interval w); simplify_eq. simpl. rewrite length_app. simpl.
    split; [done|]. split; [lia|]. intros ->. by rewrite app_assoc.
  - destruct (interval w); simplify_eq. simpl. rewrite length_app. simpl.
    split; [done|]. split; [lia|]. intros ->. by rewrite app_assoc.
  - destruct (inflight w !! i) as [rq|] eqn:E; simpl in Hstep; simplify_eq.
    destruct (Refresh.resume_frame r (receive i rq r w))
      as (_ & _ & -> & -> & -> & _).
    simpl. rewrite length_app. simpl. split; [lia|]. split; [done|].
    intros ->. rewrite fmap_app. simpl.
    rewrite (delete_Permutation (inflight w) i rq E) at 1.
    by rewrite <- app_assoc.
Qed.

(** X4: a response never touches the filters, and neither does the timer:
    after any run the filters are the initial ones with the changes of
    [updateFilter] applied in order, so the last value given to a field is
    the one in effect. *)
Theorem filters_follow_updates evs w :
  run evs initial = Some w →
  filters w = foldl change (filters initial) evs.
Proof.
  generalize initial. intros w0. revert w0.
  induction evs as [|ev evs IH]; intros w0 Hrun; simpl in Hrun.
  - by simplify_eq.
  - destruct (step ev w0) as [w1|] eqn:E; simpl in Hrun; [|done].
    simpl. rewrite <- (step_filters ev w0 w1 E). by apply IH.
Qed.

Lemma filters_follow_updates_overtaken :
  from_option (λ w, filters w !! "minMagnitude"%string = Some (Num 5))
    False (run overtaken initial).
Proof.
  destruct (run overtaken initial) as [w|] eqn:Hrun; simpl.
  - rewrite (filters_follow_updates overtaken w Hrun).
    vm_compute. reflexivity.
  - vm_compute in Hrun. discriminate.
Defined.

(** X5: the loading flag tells what happened last, not whether a request
    is on its way: it is set after a mount, a change of filters or a tick,
    and cleared after any request settles, also when other requests are
    still on their way. *)
Theorem loading_follows_last_event evs ev w :
  run (evs ++ [ev]) initial = Some w →
  loading w = is_trigger ev.
Proof.
  rewrite run_snoc. destruct (run evs initial) as [w1|]; simpl; [|done].
  apply step_loading.
Qed.

Lemma loading_follows_last_event_overtaken :
  from_option (λ w, loading w = false ∧ length (inflight w) = 1%nat)
    False
    (run [ Mount 1000; UpdateFilter "minMagnitude" (Num 5) 2000;
           Settle 0 Rejected ] initial).
Proof.
  destruct (run _ initial) as [w|] eqn:Hrun; simpl.
  - split.
    + exact (loading_follows_last_event
               [ Mount 1000; UpdateFilter "minMagnitude" (Num 5) 2000 ]
               (Settle 0 Rejected) w Hrun).
    + vm_compute in Hrun. by injection Hrun as <-.
  - vm_compute in Hrun. discriminate.
Defined.

(** X6: every mount, change of filters and tick sends exactly one request,
    with no deduplication and no cancellation: the requests sent are as many
    as those events, the requests settled as many as the settle events, and
    every request sent has either settled once or is still on its way. *)
Theorem one_request_per_trigger evs w :
  run evs initial = Some w →
  length (issued w) = length (List.filter is_trigger evs)
  ∧ length (settled w) = length (List.filter (λ ev, negb (is_trigger ev)) evs)
  ∧ issued w ≡ₚ (settled w).*1 ++ inflight w.
Proof.
  assert (∀ evs w0 w,
            run evs w0 = Some w →
            length (issued w) =
              (length (issued w0) + length (List.filter is_trigger evs))%nat
            ∧ length (settled w) =
                (length (settled w0)
                 + length (List.filter (λ ev, negb (is_trigger ev)) evs))%nat
            ∧ (issued w0 ≡ₚ (settled w0).*1 ++ inflight w0 →
               issued w ≡ₚ (settled w).*1 ++ inflight w)) as H.
  { clear. induction evs as [|ev evs IH]; intros w0 w Hrun; simpl in Hrun.
    - simplify_eq. simpl. split; [lia|]. split; [lia|done].
    - destruct (step ev w0) as [w1|] eqn:E; simpl in Hrun; [|done].
      destruct (step_requests ev w0 w1 E) as (H1 & H2 & H3).
      destruct (IH w1 w Hrun) as (H4 & H5 & H6).
      simpl. split; [|split; [|auto]].
      + rewrite H4, H1. destruct (is_trigger ev); simpl; lia.
      + rewrite H5, H2. destruct (is_trigger ev); simpl; lia. }
  intros Hrun. destruct (H evs initial w Hrun) as (H1 & H2 & H3).
  split; [exact H1|]. split; [exact H2|]. by apply H3.
Qed.

Lemma one_request_per_trigger_overtaken :
  from_option (λ w, length (issued w) = 2%nat ∧ length (settled w) = 2%nat)
    False (run overtaken initial).
Proof.
  destruct (run overtaken initial) as [w|] eqn:Hrun; simpl.
  - destruct (one_request_per_trigger overtaken w Hrun) as (H1 & H2 & _).
    split; [exact H1|exact H2].
  - vm_compute in Hrun. discriminate.
Defined.

(** X7: a response with a success status whose body is not JSON, or is the
    JSON [null], is handled like a failure: the Snapshot is emptied, the
    error is written to the console and the call completes normally.  With
    a [features] array the Snapshot becomes exactly that array and no error
    is written. *)
Theorem fetch_bodies status now w :
  ok status = true →
  let query := buildUSGSQuery now (filters w) in
  (∀ json, json = Unparsable ∨ json = JsonNull →
     let result := fetchEarthquakeData (Response status json) now w in
     result.1 = None ∧ earthquakeData result.2 = []
     ∧ loading result.2 = false
     ∧ ∃ e, last (console result.2) = Some (error_fetching e))
  ∧ (∀ features,
       let result :=
         fetchEarthquakeData (Response status (JsonObject (Some features)))
           now w in
       result.1 = None ∧ earthquakeData result.2 = features
       ∧ loading result.2 = false
       ∧ console result.2 =
           console w ++ [ log_fetching query;
                          log_fetched (JsonObject (Some features)) ]).
Proof.
  intros Hok. cbv zeta.
  unfold fetchEarthquakeData, fetchEarthquakeData_call.
  change (filters (setLoading true w)) with (filters w). split.
  - intros json Hjson. rewrite Refresh.resume_cases, Hok.
    destruct Hjson as [->| ->]; simpl;
      (split; [done|]); (split; [done|]); (split; [done|]);
      eexists; by rewrite last_snoc.
  - intros features. rewrite Refresh.resume_cases, Hok. simpl.
    split; [done|]. split; [done|]. split; [done|]. by rewrite <- app_assoc.
Qed.

Lemma fetch_bodies_200 :
  earthquakeData
    (fetchEarthquakeData (Response 200 JsonNull) 1000
       (setEarthquakeData [quake] initial)).2 = []
  ∧ earthquakeData
      (fetchEarthquakeData (Response 200 (JsonObject (Some [tremor])))
         1000 (setEarthquakeData [quake] initial)).2 = [tremor].
Proof.
  destruct (fetch_bodies 200 1000 (setEarthquakeData [quake] initial) eq_refl)
    as [H1 H2].
  split.
  - exact (proj1 (proj2 (H1 JsonNull (or_intror eq_refl)))).
  - exact (proj1 (proj2 (H2 [tremor]))).
Defined.

End Cycle.

(** ** More on the summary statistics *)

Module Stats.

Import JS JSNum NumberOrder Dashboard Sample Spec.

Lemma le_refl a : isNaN a = false → le a a = true.
Proof.
  intros Ha. unfold le. rewrite FloatAxioms.leb_spec. unfold SFleb.
  rewrite SFcompare_refl; [done|]. by apply isNaN_false.
Qed.

Lemma isZero_Prim2SF a : isZero a = true → ∃ s, Prim2SF a = S754_zero s.
Proof.
  unfold isZero. rewrite FloatAxioms.eqb_spec. unfold SFeqb.
  change (Prim2SF 0) with (S754_zero false).
  destruct (Prim2SF a) as [s|s| |s m e]; simpl; try done; [by eexists|..];
    by destruct s.
Qed.

Lemma add_zeros a b :
  isZero a = true → isZero b = true → (a + b = a ∨ a + b = b)%float.
Proof.
  intros [s1 Ha]%isZero_Prim2SF [s2 Hb]%isZero_Prim2SF.
  pose proof (FloatAxioms.add_spec a b) as Hadd.
  rewrite Ha, Hb in Hadd. unfold SF64add in Hadd. simpl in Hadd.
  destruct s1, s2; simpl in Hadd;
    ((left; apply Prim2SF_inj; congruence)
     || (right; apply Prim2SF_inj; congruence)).
Qed.

Lemma max2_cases a b :
  isNaN a = false → isNaN b = false →
  (max2 a b = a ∨ max2 a b = b)
  ∧ le a (max2 a b) = true ∧ le b (max2 a b) = true.
Proof.
  intros Ha Hb. unfold max2. rewrite Ha, Hb. simpl.
  destruct (lt a b) eqn:Hab.
  { split; [by right|]. split; [by apply lt_le|by apply le_refl]. }
  destruct (lt b a) eqn:Hba.
  { split; [by left|]. split; [by apply le_refl|by apply lt_le]. }
  assert (le a b = true) as Hle1 by (rewrite le_negb_lt, Hba; done).
  assert (le b a = true) as Hle2 by (rewrite le_negb_lt, Hab; done).
  destruct (isZero a && isZero b) eqn:Hz.
  - apply andb_true_iff in Hz as [Hza Hzb].
    destruct (add_zeros a b Hza Hzb) as [-> | ->].
    + split; [by left|]. split; [by apply le_refl|done].
    + split; [by right|]. split; [done|by apply le_refl].
  - split; [by left|]. split; [by apply le_refl|done].
Qed.

Lemma max2_isNaN a b :
  isNaN a = false → isNaN b = false → isNaN (max2 a b) = false.
Proof.
  intros Ha Hb. by destruct (max2_cases a b Ha Hb) as ([-> | ->] & _).
Qed.

(** [-Infinity] is below every number, and only [-Infinity] is below
    it. *)
Lemma le_neg_infinity x :
  le x neg_infinity = true → x = neg_infinity.
Proof.
  unfold le. rewrite FloatAxioms.leb_spec. unfold SFleb.
  change (Prim2SF neg_infinity) with (S754_infinity true).
  intros H. apply Prim2SF_inj.
  change (Prim2SF neg_infinity) with (S754_infinity true).
  destruct (Prim2SF x) as [s|s| |s m e]; simpl in H; try done;
    by destruct s.
Qed.

Lemma foldl_max2 acc xs :
  isNaN acc = false → Forall (λ x, isNaN x = false) xs →
  let result := foldl max2 acc xs in
  isNaN result = false
  ∧ (result = acc ∨ result ∈ xs)
  ∧ le acc result = true
  ∧ ∀ x, x ∈ xs → le x result = true.
Proof.
  intros Hacc Hxs. revert acc Hacc.
  induction Hxs as [|x xs Hx _ IH]; intros acc Hacc; simpl.
  - split; [done|]. split; [by left|]. split; [by apply le_refl|].
    intros x. by rewrite elem_of_nil.
  - destruct (max2_cases acc x Hacc Hx) as (Hcase & Hle1 & Hle2).
    destruct (IH (max2 acc x) (max2_isNaN acc x Hacc Hx))
      as (Hnan & Hin & Hle & Hall).
    split; [done|]. split; [|split].
    + destruct Hin as [->|Hin]; [|right; by right].
      destruct Hcase as [-> | ->]; [by left|right; by left].
    + by apply (le_trans _ (max2 acc x)).
    + intros y [->|Hy]%elem_of_cons; [|by apply Hall].
      by apply (le_trans _ (max2 acc x)).
Qed.

(** [Math.max] of numbers, at least one, picks one of them that none of
    them exceeds. *)
Lemma Math_max_greatest xs :
  xs ≠ [] → Forall (λ x, isNaN x = false) xs →
  Math_max xs ∈ xs ∧ ∀ x, x ∈ xs → le x (Math_max xs) = true.
Proof.
  intros Hne Hxs. unfold Math_max.
  destruct (foldl_max2 neg_infinity xs eq_refl Hxs) as (_ & Hin & _ & Hall).
  split; [|exact Hall].
  destruct Hin as [Heq|Hin]; [|done].
  destruct xs as [|x xs]; [done|].
  pose proof (Hall x ltac:(by left)) as Hx. rewrite Heq in Hx.
  apply le_neg_infinity in Hx. rewrite Heq, <- Hx. by left.
Qed.

(** X8: the count of the last 24 hours never exceeds the total; it is the
    total when every event is less than 24 hours old (events dated after
    [now] included), and 0 when none is. *)
Theorem getStats_last24Hours_bounds now earthquakeData :
  (last24Hours (getStats now earthquakeData)
   ≤ total (getStats now earthquakeData))%nat
  ∧ (Forall (λ eq, now - time (properties eq) < 86400000) earthquakeData →
     last24Hours (getStats now earthquakeData) =
       total (getStats now earthquakeData))
  ∧ (Forall (λ eq, 86400000 ≤ now - time (properties eq)) earthquakeData →
     last24Hours (getStats now earthquakeData) = 0%nat).
Proof.
  rewrite Summary.getStats_last24Hours, Summary.getStats_total.
  split; [apply List.filter_length_le|]. split.
  - induction 1 as [|eq l Heq _ IH]; simpl; [done|].
    apply Z.ltb_lt in Heq. rewrite Heq. simpl. by rewrite IH.
  - induction 1 as [|eq l Heq _ IH]; simpl; [done|].
    apply Z.ltb_ge in Heq. by rewrite Heq.
Qed.

Lemma getStats_last24Hours_bounds_recent :
  last24Hours (getStats 1000 [tremor; quake; unrated]) = 3%nat.
Proof.
  rewrite (proj1 (proj2 (getStats_last24Hours_bounds 1000
                           [tremor; quake; unrated]))).
  - reflexivity.
  - repeat constructor.
Defined.

(** X9: when some event has a magnitude, the largest magnitude shown is
    the magnitude of one of the events, and no event of the snapshot has a
    greater one; events without magnitude play no part. *)
Theorem getStats_largest_is_greatest now earthquakeData :
  Forall parsed earthquakeData →
  magnitudes earthquakeData ≠ [] →
  ∃ m,
    largest (getStats now earthquakeData) = Text (ToFixed 1 m)
    ∧ (∃ eq, eq ∈ earthquakeData ∧ mag (properties eq) = Some m)
    ∧ ∀ eq m', eq ∈ earthquakeData → mag (properties eq) = Some m' →
               le m' m = true.
Proof.
  intros Hparsed Hsome.
  assert (earthquakeData ≠ []) as Hne by (by intros ->).
  destruct (Math_max_greatest (magnitudes earthquakeData) Hsome)
    as [Hin Hall].
  { by apply Bands.parsed_magnitudes. }
  exists (Math_max (magnitudes earthquakeData)).
  rewrite Summary.getStats_nonempty by done. split; [done|]. split.
  - apply list_elem_of_omap in Hin as (eq & ? & ?). by exists eq.
  - intros eq m' Heq Hm'. apply Hall, list_elem_of_omap. by exists eq.
Qed.

Lemma getStats_largest_is_greatest_sample :
  ∃ m, largest (getStats 1000 (unrated :: scenarios)) = Text (ToFixed 1 m)
       ∧ le 7 m = true.
Proof.
  destruct (getStats_largest_is_greatest 1000 (unrated :: scenarios))
    as (m & Hm & _ & Hall).
  - constructor; [|exact Bands.scenarios_parsed].
    split; [intros ? [=]|intros ? [= <-]; reflexivity].
  - discriminate.
  - exists m. split; [exact Hm|].
    eapply (Hall _ 7%float).
    + unfold scenarios. simpl. do 5 right. left.
    + reflexivity.
Defined.

End Stats.

(** ** More on the lists by time *)

Module Recent.

Import Dashboard Timeline Spec.

Lemma compare_older_first (a b : Feature) :
  time (properties a) - time (properties b) ≤ 0
  ↔ time (properties a) ≤ time (properties b).
Proof. lia. Qed.

(** X10: the list of recent events holds the 10 newest events of the
    snapshot (all of them when there are fewer), newest first: it is the
    front of a rearrangement of the snapshot in which no event comes before
    a newer one, so no event left out is newer than an event listed. *)
Theorem recentEarthquakes_newest earthquakeData :
  let recent := (recentEarthquakes earthquakeData).1 in
  length recent = (10 `min` length earthquakeData)%nat
  ∧ ∃ rest,
      recent ++ rest ≡ₚ earthquakeData
      ∧ newer_first (recent ++ rest)
      ∧ ∀ x y, x ∈ recent → y ∈ rest →
               time (properties y) ≤ time (properties x).
Proof.
  pose proof (Summary.recentEarthquakes_sorted earthquakeData) as H.
  destruct (recentEarthquakes earthquakeData) as [recent after] eqn:E.
  destruct H as (Hperm & Hsorted & ->). simpl. split.
  - by rewrite length_take, (Permutation_length Hperm).
  - exists (drop 10 after). rewrite take_drop. split; [done|].
    split; [done|]. intros x y Hx Hy.
    unfold newer_first in Hsorted. rewrite <- (take_drop 10 after) in Hsorted.
    apply StronglySorted_app in Hsorted as (Hall & _ & _). by apply Hall.
Qed.

Lemma recentEarthquakes_newest_pair :
  length (recentEarthquakes [Sample.tremor; Sample.quake]).1 = 2%nat.
Proof.
  exact (proj1 (recentEarthquakes_newest [Sample.tremor; Sample.quake])).
Defined.

(** X11: the timeline plots exactly the events that have a magnitude, from
    the oldest to the newest, events of one time in the order the snapshot
    has them. *)
Theorem sortedData_oldest_first earthquakeData :
  let rated :=
    List.filter (λ d, bool_decide (is_Some (mag (properties d))))
      earthquakeData in
  sortedData earthquakeData ≡ₚ rated
  ∧ ordered (λ d, time (properties d)) (sortedData earthquakeData)
  ∧ ∀ t, List.filter (λ d, bool_decide (time (properties d) = t))
           (sortedData earthquakeData) =
         List.filter (λ d, bool_decide (time (properties d) = t)) rated.
Proof.
  cbv zeta. unfold sortedData. split; [apply ArraySort.sort_Permutation|].
  split.
  - apply (ArraySort.sort_ordered _ _ compare_older_first).
  - intros t.
    apply (ArraySort.sort_stable _ (λ d, time (properties d))
             compare_older_first).
Qed.

End Recent.

(** ** More on the hourly activity *)

Module Hourly.

Import Timeline Spec.

Lemma total_insert (m : gmap Z nat) k v :
  (sum_list_with snd (map_to_list (<[k := v]> m)) + default 0 (m !! k) =
   v + sum_list_with snd (map_to_list m))%nat.
Proof.
  destruct (m !! k) as [c|] eqn:E; simpl.
  - rewrite <- insert_delete_eq.
    rewrite (map_to_list_insert (delete k m) k v) by apply lookup_delete_eq.
    rewrite <- (map_to_list_delete m k c E). simpl. lia.
  - rewrite (map_to_list_insert m k v E). simpl. lia.
Qed.

Lemma hourBuckets_snoc now l eq :
  hourBuckets now (l ++ [eq]) =
    <[hoursAgo now eq :=
        (default 0 (hourBuckets now l !! hoursAgo now eq) + 1)%nat]>
      (hourBuckets now l).
Proof. unfold hourBuckets. by rewrite foldl_app. Qed.

(** The counts of [hourBuckets] add up to the number of events. *)
Lemma hourBuckets_total now earthquakeData :
  sum_list_with snd (map_to_list (hourBuckets now earthquakeData)) =
    length earthquakeData.
Proof.
  induction earthquakeData as [|eq l IH] using rev_ind; [done|].
  rewrite hourBuckets_snoc, length_app. simpl.
  pose proof (total_insert (hourBuckets now l) (hoursAgo now eq)
                (default 0 (hourBuckets now l !! hoursAgo now eq) + 1)%nat)
    as H.
  rewrite IH in H. lia.
Qed.

Lemma sum_entries (l : list (Z * nat)) :
  sum_list_with count (entry <$> l) = sum_list_with snd l.
Proof.
  induction l as [|hc l IH]; [done|].
  rewrite fmap_cons. cbn [sum_list_with]. by rewrite IH.
Qed.

Lemma sum_take {A} (f : A → nat) n (l : list A) :
  (sum_list_with f (take n l) ≤ sum_list_with f l)%nat.
Proof.
  rewrite <- (take_drop n l) at 2. rewrite sum_list_with_app. lia.
Qed.

Lemma key_in_range now earthquakeData h c :
  Forall (λ eq, 0 ≤ hoursAgo now eq < 24) earthquakeData →
  hourBuckets now earthquakeData !! h = Some c → 0 ≤ h < 24.
Proof.
  intros Hall. rewrite Activity.hourBuckets_lookup.
  destruct (decide _) as [|Hne]; [done|]. intros _.
  unfold events_at in Hne.
  destruct (List.filter _ earthquakeData) as [|eq l] eqn:E; [done|].
  assert (eq ∈ List.filter
                 (λ eq, bool_decide (hoursAgo now eq = h)) earthquakeData)
    as Hin by (rewrite E; by left).
  apply Counting.elem_of_filter_bool in Hin as [Hin Hh].
  apply bool_decide_eq_true in Hh as <-.
  rewrite Forall_forall in Hall. by apply Hall.
Qed.

Lemma entries_within_a_day now earthquakeData :
  Forall (λ eq, 0 ≤ hoursAgo now eq < 24) earthquakeData →
  (length (map_to_list (hourBuckets now earthquakeData)) ≤ 24)%nat.
Proof.
  intros Hall.
  rewrite <- (length_fmap fst).
  change 24%nat with (Z.to_nat 24). rewrite <- (length_seqZ 0 24).
  apply submseteq_length, NoDup_submseteq.
  - apply (NoDup_fst_map_to_list (hourBuckets now earthquakeData)).
  - intros h [[h' c] [-> Hin]]%list_elem_of_fmap. simpl.
    apply elem_of_map_to_list in Hin.
    apply elem_of_seqZ. pose proof (key_in_range _ _ _ _ Hall Hin). lia.
Qed.

(** X12: the hourly entries are at most 24 and count no event twice: their
    counts add up to at most the number of events, and to exactly that
    number when every event is between 0 and 24 whole hours old. *)
Theorem getTimeDistribution_counts now earthquakeData :
  (length (getTimeDistribution now earthquakeData) ≤ 24)%nat
  ∧ (sum_list_with count (getTimeDistribution now earthquakeData)
     ≤ length earthquakeData)%nat
  ∧ (Forall (λ eq, 0 ≤ hoursAgo now eq < 24) earthquakeData →
     sum_list_with count (getTimeDistribution now earthquakeData) =
       length earthquakeData).
Proof.
  destruct (decide (earthquakeData = [])) as [->|Hne].
  { split; [simpl; lia|]. split; [done|done]. }
  rewrite Activity.getTimeDistribution_nonempty by done.
  assert (sum_list_with count
            (Array.sort (λ a b, hours a - hours b)
               (entry <$> map_to_list (hourBuckets now earthquakeData))) =
          length earthquakeData) as Hsum.
  { rewrite ArraySort.sort_Permutation, sum_entries.
    apply hourBuckets_total. }
  split; [rewrite length_take; lia|]. split.
  - rewrite <- Hsum. apply sum_take.
  - intros Hall. rewrite take_ge; [done|].
    rewrite (Permutation_length (ArraySort.sort_Permutation _ _)).
    rewrite length_fmap. by apply entries_within_a_day.
Qed.

Lemma getTimeDistribution_counts_day :
  sum_list_with count
    (getTimeDistribution 3600700 [Sample.tremor; Sample.quake; Sample.unrated])
  = 3%nat.
Proof.
  apply (proj2 (proj2 (getTimeDistribution_counts 3600700
                         [Sample.tremor; Sample.quake; Sample.unrated]))).
  repeat constructor; vm_compute; congruence.
Defined.

End Hourly.

(** ** The colours of the magnitudes *)

Module Colours.

Import JSNum NumberOrder Statistics Spec.




End Colours.

(** ** The markers of the map *)

Module Markers.

Import JS EarthquakeMap Sample Spec.

Lemma ToBoolean_Num n :
  ToBoolean (Num n) = true ↔ JSNum.isZero n = false ∧ JSNum.isNaN n = false.
Proof.
  simpl. destruct (JSNum.isZero n), (JSNum.isNaN n); simpl; split;
    (done || by intros []).
Qed.

(** Removing every circle of a list from that list leaves nothing. *)
Lemma remove_all (markers layers : list layer) :
  (∀ l, l ∈ layers → ∃ m, m ∈ markers ∧ stamp m = stamp l) →
  foldl (λ layers marker, removeLayer marker layers) layers markers = [].
Proof.
  revert layers. induction markers as [|m markers IH]; intros layers H; simpl.
  - destruct layers as [|l layers]; [done|].
    destruct (H l) as (m & Hm & _); [by left|]. by apply elem_of_nil in Hm.
  - apply IH. intros l Hl. unfold removeLayer in Hl.
    apply Counting.elem_of_filter_bool in Hl as [Hl Hne].
    destruct (H l Hl) as (m' & [->|Hm']%elem_of_cons & Heq); [|by eexists].
    rewrite Heq, Nat.eqb_refl in Hne. done.
Qed.

(** The rounds of [forEach] add one circle for each event that has one, in
    the order of the events. *)
Lemma place_markers layers markers n earthquakes :
  ∃ new,
    foldl place_marker
      {| map := Some layers; markersRef := markers; made := n |} earthquakes =
      {| map := Some (layers ++ new); markersRef := markers ++ new;
         made := (n + length new)%nat |}
    ∧ shape <$> new = omap marker earthquakes.
Proof.
  revert layers markers n.
  induction earthquakes as [|eq l IH]; intros layers markers n; simpl.
  - exists []. by rewrite !app_nil_r, Nat.add_0_r.
  - unfold place_marker at 2. destruct (marker eq) as [c|]; simpl.
    + destruct (IH (layers ++ [{| stamp := n; shape := c |}])
                  (markers ++ [{| stamp := n; shape := c |}]) (S n))
        as (new & -> & Hnew).
      exists ({| stamp := n; shape := c |} :: new). split.
      * rewrite <- !app_assoc. simpl. f_equal. lia.
      * by rewrite fmap_cons, Hnew.
    + apply IH.
Qed.

Lemma update_markers_shown earthquakes st :
  in_step st → is_Some (map st) →
  let st' := update_markers earthquakes false st in
  in_step st'
  ∧ ∃ layers, map st' = Some layers
              ∧ shape <$> layers = omap marker earthquakes.
Proof.
  unfold in_step, update_markers. intros Hinv [layers Hmap].
  rewrite Hmap in *. subst layers. cbv zeta.
  rewrite remove_all by (intros l ?; by exists l).
  destruct (place_markers [] [] (made st) earthquakes) as (new & -> & Hnew).
  simpl. split; [done|]. by exists new.
Qed.

Lemma step_in_step st ev : in_step st → in_step (step st ev).
Proof.
  intros Hinv. destruct ev as [|earthquakes loading]; simpl.
  - unfold initialize, in_step in *.
    destruct (map st) as [layers|] eqn:E; simpl; [by rewrite E|done].
  - destruct loading.
    + unfold update_markers. by destruct (map st).
    + destruct (map st) as [layers|] eqn:Hmap.
      * apply update_markers_shown; [done|]. rewrite Hmap. by eexists.
      * unfold update_markers. by rewrite Hmap.
Qed.

Lemma run_in_step evs : in_step (run evs initial).
Proof.
  unfold run. induction evs as [|ev evs IH] using rev_ind; [done|].
  rewrite foldl_app. simpl. by apply step_in_step.
Qed.

(** X14: an event gets a marker on the map exactly when its magnitude, its
    latitude and its longitude are numbers other than 0 (and NaN): an event
    without magnitude or of magnitude 0, and an event on the equator or on
    the prime meridian, is not drawn.  The marker is centred on the event,
    its radius is 10000 times the magnitude, and it has the colour of the
    magnitude. *)
Theorem marker_iff_nonzero earthquake :
  (is_Some (marker earthquake)
   ↔ nonzero (mag (properties earthquake))
     ∧ nonzero (coordinate 1 earthquake)
     ∧ nonzero (coordinate 0 earthquake))
  ∧ ∀ c, marker earthquake = Some c →
         ∃ m lat lon,
           mag (properties earthquake) = Some m
           ∧ coordinate 1 earthquake = Some lat
           ∧ coordinate 0 earthquake = Some lon
           ∧ center c = (lat, lon)
           ∧ radius c = (m * 10000)%float
           ∧ color c = getMarkerColor m
           ∧ fillColor c = getMarkerColor m.
Proof.
  unfold marker, nonzero, coordinate.
  destruct (mag (properties earthquake)) as [m|];
    [|split; [split; [by intros []|by intros [(? & [=] & _) _]]|done]].
  destruct (mjoin (coordinates (geometry earthquake) !! 1%nat)) as [lat|];
    [|split; [split; [by intros []|by intros (_ & (? & [=] & _) & _)]|done]].
  destruct (mjoin (coordinates (geometry earthquake) !! 0%nat)) as [lon|];
    [|split; [split; [by intros []|by intros (_ & _ & (? & [=] & _))]|done]].
  destruct (ToBoolean (Num m)) eqn:Hm, (ToBoolean (Num lat)) eqn:Hlat,
    (ToBoolean (Num lon)) eqn:Hlon; simpl;
    (split; [split|]); try (by intros []); try done;
    try (intros [(? & [= <-] & H1) [(? & [= <-] & H2) (? & [= <-] & H3)]];
         apply ToBoolean_Num in H1, H2, H3; congruence).
  - intros _. apply ToBoolean_Num in Hm, Hlat, Hlon.
    split; [by eexists|]. split; by eexists.
  - intros c [= <-]. by exists m, lat, lon.
Qed.

Lemma marker_iff_nonzero_tremor :
  is_Some (marker tremor)
  ∧ ¬ is_Some (marker unrated)
  ∧ ¬ is_Some
        (marker {| id := "equator";
                   geometry := {| coordinates := [Some 20; Some 0]%float |};
                   properties := properties quake |}).
Proof.
  split; [|split].
  - apply (proj1 (marker_iff_nonzero tremor)).
    split; [|split]; eexists; (split; [reflexivity|]); by split.
  - intros (H & _)%(proj1 (marker_iff_nonzero unrated)).
    by destruct H as (? & [=] & _).
  - intros (_ & H & _)%(proj1 (marker_iff_nonzero _)).
    destruct H as (? & [= <-] & H & _). discriminate H.
Defined.

(** X15: the circles on the map are always the ones [markersRef] holds, so
    markers never pile up.  After a render that is not loading, on an
    initialised map, they are the markers of the events of that render, in
    their order, whatever was drawn before; a render that is loading leaves
    the markers of the earlier events in place. *)
Theorem markers_follow_render evs earthquakes :
  let st := run (evs ++ [Render earthquakes false]) initial in
  in_step st
  ∧ (Initialize ∈ evs →
     ∃ layers, map st = Some layers
               ∧ shape <$> layers = omap marker earthquakes)
  ∧ run (evs ++ [Render earthquakes true]) initial = run evs initial.
Proof.
  cbv zeta. split; [apply run_in_step|]. split.
  - intros Hinit. unfold run. rewrite foldl_app. simpl.
    apply update_markers_shown; [apply run_in_step|].
    clear earthquakes. fold (run evs initial).
    induction evs as [|ev evs IH] using rev_ind;
      [by apply elem_of_nil in Hinit|].
    unfold run. rewrite foldl_app. simpl. fold (run evs initial).
    apply elem_of_app in Hinit as [Hinit|Hinit%list_elem_of_singleton].
    + specialize (IH Hinit). destruct IH as [layers Hmap].
      destruct ev as [|earthquakes loading]; simpl.
      * unfold initialize. by rewrite Hmap.
      * destruct loading.
        -- unfold update_markers. by rewrite Hmap.
        -- destruct (update_markers_shown earthquakes (run evs initial))
             as (_ & layers' & -> & _); [apply run_in_step|by eexists|done].
    + subst ev. simpl. unfold initialize.
      destruct (map (run evs initial)) eqn:E; simpl; [rewrite E|];
        by eexists.
  - unfold run. rewrite foldl_app. simpl. unfold update_markers.
    by destruct (map _).
Qed.

Lemma markers_follow_render_twice :
  ∃ layers,
    map (run ([Initialize; Render [tremor; quake; unrated] false]
              ++ [Render [unrated; quake] false]) initial) = Some layers
    ∧ shape <$> layers = omap marker [unrated; quake].
Proof.
  apply (markers_follow_render
           [Initialize; Render [tremor; quake; unrated] false]
           [unrated; quake]).
  left.
Defined.

End Markers.

(** ** The selection and the details *)

Module Selection.

Import JS App Details Sample Spec.

Lemma resume_selected r st :
  let st' := handleEventClick_resume r st in
  selectedEvent st' = selectedEvent st
  ∧ asked st' = asked st
  ∧ loadingDetails st' = false
  ∧ eventDetails st' = first_feature r
  ∧ (console st' = console st
     ∨ ∃ e, console st' = console st ++ [e]).
Proof.
  unfold handleEventClick_resume, handleEventClick_try, getEventDetails.
  destruct r as [|status [| |[features|]]]; simpl;
    repeat split; (by left) || (right; by eexists).
Qed.

Lemma step_selected ev st st' :
  step ev st = Some st' → selectedEvent st' = toggle (selectedEvent st) ev.
Proof.
  intros Hstep. destruct ev as [earthquake|i r]; simpl in Hstep.
  - simplify_eq. unfold handleEventClick_call. simpl.
    by case_bool_decide.
  - destruct (asked st !! i); simpl in Hstep; simplify_eq.
    by destruct (resume_selected r (arrive i st)) as (-> & _).
Qed.

(** X16: the selection is decided by the clicks alone: a click on the
    event that is selected clears the selection, a click on any other
    event selects it, and no response, whenever it arrives, changes what is
    selected. *)
Theorem selection_follows_clicks evs st :
  run evs initial = Some st →
  selectedEvent st = foldl toggle None evs.
Proof.
  change None with (selectedEvent initial). generalize initial. intros st0.
  revert st0. induction evs as [|ev evs IH]; intros st0 Hrun; simpl in Hrun.
  - by simplify_eq.
  - destruct (step ev st0) as [st1|] eqn:E; simpl in Hrun; [|done].
    simpl. rewrite <- (step_selected ev st0 st1 E). by apply IH.
Qed.

Lemma selection_follows_clicks_late :
  from_option (λ st, selectedEvent st = Some "quake"%string) False
    (run late_details initial).
Proof.
  destruct (run late_details initial) as [st|] eqn:Hrun; simpl.
  - rewrite (selection_follows_clicks late_details st Hrun). reflexivity.
  - vm_compute in Hrun. discriminate.
Defined.

(** X17: the details that arrive are stored whatever event is selected by
    then and whatever the status of the response is: when a request
    settles, the loading flag of the details is cleared, also when another
    request is on its way, and the panel under the selected event shows the
    first feature of that response, or the failure text when there is
    none. *)
Theorem details_are_the_last_to_arrive i r st st' earthquake :
  step (Settle i r) st = Some st' →
  selectedEvent st = Some (id earthquake) →
  loadingDetails st' = false
  ∧ eventDetails st' = first_feature r
  ∧ render_panel earthquake st' =
      match first_feature r with
      | Some details => DetailsPanel details
      | None => FailedPanel
      end.
Proof.
  simpl. intros Hstep Hsel.
  destruct (asked st !! i); simpl in Hstep; simplify_eq.
  destruct (resume_selected r (arrive i st)) as (H1 & _ & H2 & H3 & _).
  split; [done|]. split; [done|].
  unfold render_panel. rewrite H1, H2, H3. simpl. rewrite Hsel.
  by rewrite bool_decide_eq_true_2.
Qed.

Lemma details_are_the_last_to_arrive_late :
  from_option
    (λ st, render_panel quake st = DetailsPanel tremor
           ∧ asked st = ["quake"%string])
    False (run late_details initial).
Proof.
  destruct (run [Click tremor; Click quake] initial) as [st|] eqn:Hrun;
    [|vm_compute in Hrun; discriminate].
  destruct (step (Settle 0 (Response 200 (JsonObject (Some [tremor])))) st)
    as [st'|] eqn:Hstep;
    [|vm_compute in Hrun; injection Hrun as <-; vm_compute in Hstep;
      discriminate].
  assert (run late_details initial = Some st') as ->.
  { change late_details with
      ([Click tremor; Click quake]
       ++ [Settle 0 (Response 200 (JsonObject (Some [tremor])))]).
    vm_compute in Hrun. injection Hrun as <-.
    vm_compute in Hstep. injection Hstep as <-. vm_compute. reflexivity. }
  simpl. split.
  - refine (proj2 (proj2 (details_are_the_last_to_arrive 0 _ st st' quake
                            Hstep _))).
    vm_compute in Hrun. by injection Hrun as <-.
  - vm_compute in Hrun. injection Hrun as <-.
    vm_compute in Hstep. by injection Hstep as <-.
Defined.

End Selection.
